(** * blark: parsing orchestration, summary lookup and documentation domain

    A shallow embedding of [blark/parse.py] (the shared parser engine,
    [parse_source_code], the project walker [parse_project], the top-level
    [parse] generator, [summarize]) and of [blark/sphinxdomain.py] (the
    cache lookup [BlarkSphinxCache.find_by_name], the directive, the
    cross-reference role, the domain tables and the nodes).

    Python exceptions are an explicit result type, the module global
    [_PARSER] and the printed output live in an explicit state, and a
    generator is the list of the pairs it yields when it is drained,
    together with the way it finishes.  Every call to an external
    collaborator (lark, the comment extractor, the transformer) is logged in
    the state, so that statements about what was called, with what and in
    which order can be made. *)

From stdpp Require Import gmap strings list.
From Stdlib Require Import ZArith Ascii.

Open Scope string_scope.
Open Scope Z_scope.
Open Scope list_scope.

(** ** Exceptions and results *)

(** An instance of [Exception]: its class name, [str(ex)], and the instance
    attributes set on it after construction ([ex.traceback = tb] inserts
    the key ["traceback"]).  Exit signals outside [Exception]
    ([KeyboardInterrupt], [SystemExit]) are not modelled. *)
Record Exn := mkExn {
  exc_type : string;
  exc_msg : string;
  exc_attrs : gmap string string;
}.

Inductive Res (A : Type) : Type :=
| Ok (a : A)
| Raise (ex : Exn).
Arguments Ok {A} a.
Arguments Raise {A} ex.

Definition is_ok {A} (r : Res A) : bool :=
  match r with Ok _ => true | Raise _ => false end.

(** [ex.traceback = tb] *)
Definition set_traceback (ex : Exn) (tb : string) : Exn :=
  {| exc_type := exc_type ex;
     exc_msg := exc_msg ex;
     exc_attrs := <["traceback" := tb]> (exc_attrs ex) |}.

(** Paths and unit identifiers ([pathlib.Path], [str]). *)
Definition Path := string.

(** ** The typed AST and its summary *)

Inductive CommentKind := Comment | Pragma.

Record CommentRecord := {
  comment_span : nat * nat;
  comment_kind : CommentKind;
  comment_text : string;
}.

Definition Comments := list CommentRecord.

Record Declaration := {
  decl_name : string;
  decl_type : string;
  decl_value : option string;
}.

(** A Python [dict]: keys are unique and kept in insertion order. *)
Definition dict (V : Type) := list (string * V).

Definition dict_get {V} (d : dict V) (k : string) : option V :=
  snd <$> List.find (λ kv, bool_decide (fst kv = k)) d.

(** [d[k] = v]: an existing key keeps its position, a new key goes last. *)
Fixpoint dict_set {V} (d : dict V) (k : string) (v : V) : dict V :=
  match d with
  | [] => [(k, v)]
  | (k', v') :: d' =>
      if bool_decide (k' = k) then (k, v) :: d' else (k', v') :: dict_set d' k v
  end.

Definition dict_keys {V} (d : dict V) : list string := d.*1.
Definition dict_values {V} (d : dict V) : list V := d.*2.

(** Section kind to declarations by name, both in source order. *)
Definition DeclarationBlock := dict (dict Declaration).

Record Method := {
  method_name : string;
  method_declarations : DeclarationBlock;
}.

Record Action := { action_name : string }.

Record FunctionBlock := {
  fb_name : string;
  fb_declarations : DeclarationBlock;
  fb_methods : list Method;
  fb_actions : list Action;
}.

(** Modelled from the spec: [transform.SourceCode], the typed AST of one
    unit, is declared in [blark/transform.py], which is not part of the
    sources at hand.  Following §3 (Source Unit, AST Node, Declaration
    Block) it owns the declared function blocks and programs in source
    order, the original text, the display identifier and the comment table. *)
Record SourceCode := {
  items : list FunctionBlock;
  sc_filename : Path;
  raw_source : string;
  sc_comments : Comments;
}.

Record MethodSummary := {
  ms_name : string;
  ms_declarations : DeclarationBlock;
}.

Record ActionSummary := { as_name : string }.

Record FunctionBlockSummary := {
  fbs_name : string;
  fbs_declarations : DeclarationBlock;
  fbs_methods : list MethodSummary;
  fbs_actions : list ActionSummary;
}.

Record CodeSummary := {
  function_blocks : dict FunctionBlockSummary;
}.






(** ** The container reader (pytmc) *)

(** A declared unit of a project.  [hasattr(item, "get_source_code")] is
    [is_Some (item_get_source_code item)]; calling the accessor returns
    [None] or a text, or raises. *)
Record SourceItem := {
  filename : Path;
  item_get_source_code : option (Res (option string));
}.

Record Plc := {
  dut_by_name : dict SourceItem;
  gvl_by_name : dict SourceItem;
  pou_by_name : dict SourceItem;
}.

Record Project := { plcs : list Plc }.

(** ** The parser engine and the module state *)

Definition Kwargs := list (string * string).

(** A [lark.Lark] instance: [lark_id] is the identity of the object,
    [lark_options] the keyword arguments it was built with. *)
Record Lark := mkLark {
  lark_id : nat;
  lark_options : Kwargs;
}.

#[global] Instance Lark_eq_dec : EqDecision Lark.
Proof. solve_decision. Defined.

(** A text preprocessor: a named callable on texts. *)
Record Preprocessor := {
  pp_name : string;
  pp_call : string → Res string;
}.

(** What the module does to the world around it. *)
Inductive Event :=
| EvNewParser (p : Lark)
| EvPreprocess (name : string) (text : string)
| EvFindAndCleanComments (text : string)
| EvLarkParse (p : Lark) (text : string)
| EvTransform (fn : Path) (source_code : string)
| EvPrint (line : string).

(** The module global [_PARSER], the number of engines built so far (the
    identity of the next one), and the log of events. *)
Record State := mkState {
  _PARSER : option Lark;
  next_id : nat;
  trace : list Event;
}.

Definition log (ev : Event) (st : State) : State :=
  {| _PARSER := _PARSER st; next_id := next_id st; trace := trace st ++ [ev] |}.

(** ** A state and exception monad *)

Definition M (A : Type) : Type := State → Res A * State.

#[global] Instance M_ret : MRet M := λ A a st, (Ok a, st).

#[global] Instance M_bind : MBind M := λ A B k m st,
  match m st with
  | (Ok a, st') => k a st'
  | (Raise ex, st') => (Raise ex, st')
  end.

Definition raise {A} (ex : Exn) : M A := λ st, (Raise ex, st).

(** [try: m except Exception as ex: handler ex] *)
Definition try_except {A} (m : M A) (handler : Exn → M A) : M A := λ st,
  match m st with
  | (Ok a, st') => (Ok a, st')
  | (Raise ex, st') => handler ex st'
  end.

(** A call to a collaborator: it is logged, then returns or raises. *)
Definition call {A} (ev : Event) (r : Res A) : M A := λ st, (r, log ev st).

(** A call that leaves no mark in the state (reading a file). *)
Definition lift {A} (r : Res A) : M A := λ st, (r, st).

Definition print (line : string) : M unit := call (EvPrint line) (Ok tt).

Definition when (b : bool) (m : M unit) : M unit := if b then m else mret tt.

Definition read_PARSER : M (option Lark) := λ st, (Ok (_PARSER st), st).

Definition write_PARSER (p : Lark) : M unit := λ st,
  (Ok tt, {| _PARSER := Some p; next_id := next_id st; trace := trace st |}).

(** Python truth value of what a source accessor returns: [None] and the
    empty text are false. *)
Definition truthy (source_code : option string) : bool :=
  match source_code with
  | None => false
  | Some text => negb (bool_decide (text = ""))
  end.

(** The texts a sequence of preprocessors is run on: each one receives
    what the one before it returned. *)
Fixpoint preprocess (preprocessors : list Preprocessor) (text : string)
    : Res string :=
  match preprocessors with
  | [] => Ok text
  | p :: rest =>
      match pp_call p text with
      | Ok text' => preprocess rest text'
      | Raise ex => Raise ex
      end
  end.

(** The calls this makes, in order. *)
Fixpoint preprocess_calls (preprocessors : list Preprocessor) (text : string)
    : list Event :=
  match preprocessors with
  | [] => []
  | p :: rest =>
      EvPreprocess (pp_name p) text ::
      match pp_call p text with
      | Ok text' => preprocess_calls rest text'
      | Raise _ => []
      end
  end.

(** The source text of a unit is retrievable: it has an accessor, and the
    accessor returns a text that is not empty. *)
Definition retrievable (item : SourceItem) : bool :=
  match item_get_source_code item with
  | Some (Ok source_code) => truthy source_code
  | _ => false
  end.

(** The unit has no source text: it has no accessor, or the accessor
    returns [None] or an empty text. *)
Definition without_source (item : SourceItem) : bool :=
  match item_get_source_code item with
  | None => true
  | Some (Ok source_code) => negb (truthy source_code)
  | Some (Raise _) => false
  end.

(** The exception the accessor of the unit raises, if it raises. *)
Definition accessor_error (item : SourceItem) : option Exn :=
  match item_get_source_code item with
  | Some (Raise ex) => Some ex
  | _ => None
  end.

(** The units before the first one whose accessor raises. *)
Fixpoint walked (entries : dict SourceItem) : dict SourceItem :=
  match entries with
  | [] => []
  | (name, item) :: rest =>
      match accessor_error item with
      | Some _ => []
      | None => (name, item) :: walked rest
      end
  end.

(** The exception of the first accessor that raises, if one does. *)
Fixpoint walk_end (entries : dict SourceItem) : Res unit :=
  match entries with
  | [] => Ok tt
  | (name, item) :: rest =>
      match accessor_error item with
      | Some ex => Raise ex
      | None => walk_end rest
      end
  end.

(** The state [st'] comes from [st] by logging events that all satisfy
    [P]; the shared engine and the count of engines built are the same. *)
Definition extends (P : Event → Prop) (st st' : State) : Prop :=
  _PARSER st' = _PARSER st ∧ next_id st' = next_id st ∧
  ∃ evs, trace st' = trace st ++ evs ∧ Forall P evs.

(** The log only grows. *)
Definition trace_grows (st st' : State) : Prop :=
  ∃ evs, trace st' = trace st ++ evs.


(** Whatever state [m] is run in, the state it leaves is related to it
    by [R]. *)
Definition preserves {A} (R : relation State) (m : M A) : Prop :=
  ∀ st, R st (m st).2.

(** [m] never raises. *)
Definition succeeds (m : M unit) : Prop := ∀ st, (m st).1 = Ok tt.

(** No engine is built, and only [p] is asked to parse. *)
Definition uses_only (p : Lark) (ev : Event) : Prop :=
  match ev with
  | EvNewParser _ => False
  | EvLarkParse q _ => q = p
  | _ => True
  end.

Definition is_new_parser (ev : Event) : bool :=
  match ev with EvNewParser _ => true | _ => false end.

(** How many times the engine constructor has run. *)
Definition constructions (st : State) : nat :=
  length (List.filter is_new_parser (trace st)).

(** An engine that has been stored stays stored, and no other one is
    built. *)
Definition settled (st st' : State) : Prop :=
  ∀ p, _PARSER st = Some p →
       _PARSER st' = Some p ∧ constructions st' = constructions st.

(** ** External collaborators

    The grammar engine (lark), the comment extractor and file reader of
    [blark/util.py], the transformer of [blark/transform.py], the container
    reader (pytmc), [pathlib] and [traceback] are used by the code only
    through the calls below. *)
Class Collaborators := {
  (** [lark.Tree], the concrete syntax tree *)
  Tree : Type;
  (** [parser.parse(text)] *)
  lark_parse : Lark → string → Res Tree;
  (** [tree.pretty()] *)
  tree_pretty : Tree → string;
  (** [util.find_and_clean_comments(text)] *)
  find_and_clean_comments : string → Res (Comments * string);
  (** [GrammarTransformer(comments=, fn=, source_code=).transform(tree)] *)
  transformer_transform : Comments → Path → string → Tree → Res SourceCode;
  (** [util.get_source_code(fn)] *)
  get_source_code : Path → Res string;
  (** [pytmc.parser.parse(proj_path)] *)
  pytmc_parse : Path → Res Project;
  (** [pytmc.parser.projects_from_solution(path)] *)
  projects_from_solution : Path → Res (list Path);
  (** [path.suffix.lower()] *)
  suffix_lower : Path → string;
  (** [traceback.format_exc()] while [ex] is being handled *)
  format_exc : Exn → string;
}.

Section Parse.
Context `{Collaborators}.

(** A Python value handed to the caller of this module: a transformed
    unit, a raw tree, or an exception object. *)
Inductive PyObj :=
| ObjSourceCode (code : SourceCode)
| ObjTree (tree : Tree)
| ObjException (ex : Exn).

(** [isinstance(result, Exception)] *)
Definition is_exception (v : PyObj) : bool :=
  match v with ObjException _ => true | _ => false end.

(** [new_parser(kwargs)]: builds a fresh engine from the packaged grammar
    (Earley, with placeholders and positions, plus [kwargs]); the new
    object gets the next free identity.  The packaged grammar is taken to
    compile: the constructor returns. *)
Definition new_parser (kwargs : Kwargs) : M Lark := λ st,
  let p := mkLark (next_id st) kwargs in
  (Ok p, {| _PARSER := _PARSER st;
            next_id := S (next_id st);
            trace := trace st ++ [EvNewParser p] |}).

Definition get_parser : M Lark :=
  cached ← read_PARSER;
  match cached with
  | None => p ← new_parser []; _ ← write_PARSER p; mret p
  | Some p => mret p
  end.

Definition DEFAULT_PREPROCESSORS : list Preprocessor := [].

(** [for preprocessor in preprocessors:
       processed_source = preprocessor(processed_source)] *)
Fixpoint apply_preprocessors (preprocessors : list Preprocessor)
    (processed_source : string) : M string :=
  match preprocessors with
  | [] => mret processed_source
  | preprocessor :: rest =>
      processed_source ←
        call (EvPreprocess (pp_name preprocessor) processed_source)
             (pp_call preprocessor processed_source);
      apply_preprocessors rest processed_source
  end.

Definition dashes : string := "-------------------------------".

(** [preprocessors = None] stands for the omitted argument (the sentinel
    [_DEFAULT_PREPROCESSORS]); [parser = None] is Python's [None]. *)
Definition parse_source_code (source_code : string) (verbose : Z) (fn : Path)
    (preprocessors : option (list Preprocessor)) (parser : option Lark)
    (transform : bool) : M PyObj :=
  let preprocessors := default DEFAULT_PREPROCESSORS preprocessors in
  processed_source ← apply_preprocessors preprocessors source_code;
  '(comments, processed_source) ←
    call (EvFindAndCleanComments processed_source)
         (find_and_clean_comments processed_source);
  parser ← match parser with
           | None => get_parser
           | Some parser => mret parser
           end;
  tree ← try_except
    (call (EvLarkParse parser processed_source) (lark_parse parser processed_source))
    (λ ex,
      _ ← when (1 <? verbose) (
        _ ← print "[Failure] Parse failure";
        _ ← print dashes;
        _ ← print source_code;
        _ ← print dashes;
        _ ← print (exc_type ex +:+ " " +:+ exc_msg ex);
        print ("[Failure] " +:+ fn));
      raise ex);
  _ ← when (2 <? verbose) (
    _ ← print ("Successfully parsed " +:+ fn +:+ ":");
    _ ← print dashes;
    _ ← print source_code;
    _ ← print dashes;
    _ ← print (tree_pretty tree);
    _ ← print dashes;
    print ("[Success] End of " +:+ fn));
  if transform then
    code ← call (EvTransform fn source_code)
                (transformer_transform comments fn source_code tree);
    mret (ObjSourceCode code)
  else mret (ObjTree tree).

Definition parse_single_file (fn : Path) (transform : bool) : M PyObj :=
  source_code ← lift (get_source_code fn);
  parse_source_code source_code 0 fn None None transform.

(** ** Generators

    A generator that is drained by its consumer: the values it yields, in
    order, how its body finishes (its return value, or the exception that
    leaves it), and the state it leaves. *)
Definition Gen (Y A : Type) : Type := State → list Y * Res A * State.

Definition yields {Y A} (out : list Y * Res A * State) : list Y := out.1.1.
Definition finish {Y A} (out : list Y * Res A * State) : Res A := out.1.2.
Definition final {Y A} (out : list Y * Res A * State) : State := out.2.

#[global] Instance Gen_ret {Y} : MRet (Gen Y) := λ A a st, ([], Ok a, st).

#[global] Instance Gen_bind {Y} : MBind (Gen Y) := λ A B k g st,
  match g st with
  | (ys, Ok a, st') => let '(ys', r, st'') := k a st' in (ys ++ ys', r, st'')
  | (ys, Raise ex, st') => (ys, Raise ex, st')
  end.

(** [yield y] *)
Definition yield {Y} (y : Y) : Gen Y unit := λ st, ([y], Ok tt, st).

(** An ordinary call inside a generator body. *)
Definition run {Y A} (m : M A) : Gen Y A := λ st,
  let '(r, st') := m st in ([], r, st').

(** [try: g except Exception as ex: handler ex]; what [g] yielded before
    it raised has already been handed out. *)
Definition gen_try {Y A} (g : Gen Y A) (handler : Exn → Gen Y A) : Gen Y A :=
  λ st,
  match g st with
  | (ys, Ok a, st') => (ys, Ok a, st')
  | (ys, Raise ex, st') =>
      let '(ys', r, st'') := handler ex st' in (ys ++ ys', r, st'')
  end.

(** [for x in l: body x] *)
Fixpoint gen_for {Y A} (l : list A) (body : A → Gen Y unit) : Gen Y unit :=
  match l with
  | [] => mret tt
  | x :: l' => _ ← body x; gen_for l' body
  end.

(** Whatever state the generator [g] is drained in, the state it leaves
    is related to it by [R]. *)
Definition gen_preserves {Y A} (R : relation State) (g : Gen Y A) : Prop :=
  ∀ st, R st (final (g st)).

(** The body of the inner loop of [parse_project], for one
    [(name, source_item)] of [source_items]. *)
Definition parse_project_item (verbose : Z) (entry : string * SourceItem)
    : Gen (Path * PyObj) unit :=
  let '(name, source_item) := entry in
  match item_get_source_code source_item with
  | None => mret tt
  | Some accessor =>
      source_code ← run (lift accessor);
      if negb (truthy source_code) then mret tt
      else
        gen_try
          (result ← run (parse_source_code (default "" source_code) verbose
                           (filename source_item) None None true);
           yield (filename source_item, result))
          (λ ex,
            let tb := format_exc ex in
            let ex := set_traceback ex tb in
            yield (filename source_item, ObjException ex))
  end.

Definition source_items (plc : Plc) : dict SourceItem :=
  dut_by_name plc ++ gvl_by_name plc ++ pou_by_name plc.

(** The argument [transform] is accepted and not used, as in the source;
    [results] stays empty and [success] stays [True].  [proj_root] is
    computed and not used, and is left out. *)
Definition parse_project (tsproj_project : Path) (verbose : Z)
    (transform : bool) : Gen (Path * PyObj) (bool * dict PyObj) :=
  let proj_path := tsproj_project in
  _ ← (if negb (bool_decide (suffix_lower proj_path = ".tsproj"))
       then run (raise (mkExn "ValueError" "Expected a .tsproj file" ∅))
       else mret tt);
  project ← run (lift (pytmc_parse proj_path));
  let results := [] in
  let success := true in
  _ ← gen_for (plcs project) (λ plc,
        gen_for (source_items plc) (parse_project_item verbose));
  mret (success, results).

(** The body of the loop of [parse], for one [fn] of [filenames];
    [yield from parse_project(fn)] hands on what the walker yields and
    drops its return value. *)
Definition parse_filename (fn : Path) : Gen (Path * PyObj) unit :=
  gen_try
    (if bool_decide (suffix_lower fn = ".tsproj")
     then _ ← parse_project fn 0 true; mret tt
     else result ← run (parse_single_file fn true); yield (fn, result))
    (λ ex,
      let tb := format_exc ex in
      let ex := set_traceback ex tb in
      yield (fn, ObjException ex)).

Definition parse (path : Path) : Gen (Path * PyObj) unit :=
  filenames ←
    (if bool_decide (suffix_lower path = ".tsproj") then mret [path]
     else if bool_decide (suffix_lower path = ".sln")
          then run (lift (projects_from_solution path))
          else mret [path]);
  gen_for filenames parse_filename.


(** The engine a call of [parse_source_code] uses when it is entered in
    state [st] with argument [parser]. *)
Definition engine_for (parser : option Lark) (st : State) : Lark :=
  match parser with
  | Some p => p
  | None => default (mkLark (next_id st) []) (_PARSER st)
  end.

(** What a call of [parse_source_code] returns or raises, stage by
    stage, when it is entered in state [st]. *)
Definition parse_outcome (source_code : string) (fn : Path)
    (preprocessors : option (list Preprocessor)) (parser : option Lark)
    (transform : bool) (st : State) : Res PyObj :=
  match preprocess (default DEFAULT_PREPROCESSORS preprocessors) source_code with
  | Raise ex => Raise ex
  | Ok text =>
      match find_and_clean_comments text with
      | Raise ex => Raise ex
      | Ok (comments, clean) =>
          match lark_parse (engine_for parser st) clean with
          | Raise ex => Raise ex
          | Ok tree =>
              if transform then
                match transformer_transform comments fn source_code tree with
                | Ok code => Ok (ObjSourceCode code)
                | Raise ex => Raise ex
                end
              else Ok (ObjTree tree)
          end
      end
  end.

(** What the walker pairs with a unit's identifier: the result of the
    parse, or the exception it raised, with its traceback. *)
Definition pair_value (r : Res PyObj) : PyObj :=
  match r with
  | Ok result => result
  | Raise ex => ObjException (set_traceback ex (format_exc ex))
  end.

(** What [parse_project] returns, or the exception that leaves it, when
    its loop ends as [r]: [(success, results)], which is [(True, {})]. *)
Definition walker_result (r : Res unit) : Res (bool * dict PyObj) :=
  match r with
  | Ok _ => Ok (true, [])
  | Raise ex => Raise ex
  end.

(** The pair [parse] yields when processing the file [fn] raised [ex]. *)
Definition error_pair (fn : Path) (ex : Exn) : Path * PyObj :=
  (fn, ObjException (set_traceback ex (format_exc ex))).

(** *** Notions used to state the properties *)

(** All declared units of a project, in the order the walker visits
    them. *)
Definition project_items (project : Project) : dict SourceItem :=
  concat (source_items <$> plcs project).

(** [n] calls of [get_parser] in a row, with what each returned. *)
Fixpoint call_get_parser (n : nat) : M (list Lark) :=
  match n with
  | O => mret []
  | S n' => p ← get_parser; ps ← call_get_parser n'; mret (p :: ps)
  end.

(** A failure of one stage of [parse_source_code], the stages before it
    having succeeded: preprocessing, comment extraction, grammar parse,
    transform (a stage only when [transform] is set). *)
Inductive stage_failure (source_code : string) (fn : Path)
    (preprocessors : list Preprocessor) (engine : Lark) (transform : bool)
    : Exn → Prop :=
| preprocessing_fails ex :
    preprocess preprocessors source_code = Raise ex →
    stage_failure source_code fn preprocessors engine transform ex
| extraction_fails text ex :
    preprocess preprocessors source_code = Ok text →
    find_and_clean_comments text = Raise ex →
    stage_failure source_code fn preprocessors engine transform ex
| grammar_parse_fails text comments clean ex :
    preprocess preprocessors source_code = Ok text →
    find_and_clean_comments text = Ok (comments, clean) →
    lark_parse engine clean = Raise ex →
    stage_failure source_code fn preprocessors engine transform ex
| transform_fails text comments clean tree ex :
    transform = true →
    preprocess preprocessors source_code = Ok text →
    find_and_clean_comments text = Ok (comments, clean) →
    lark_parse engine clean = Ok tree →
    transformer_transform comments fn source_code tree = Raise ex →
    stage_failure source_code fn preprocessors engine transform ex.

(** The pair [y] belongs to the unit [item]: it carries the unit's
    identifier and either a transformed source unit or an exception
    object, not both. *)
Definition one_or_the_other (item : SourceItem) (y : Path * PyObj) : Prop :=
  y.1 = filename item ∧
  ((∃ code, y.2 = ObjSourceCode code) ∨ (∃ ex, y.2 = ObjException ex)) ∧
  ¬ ((∃ code, y.2 = ObjSourceCode code) ∧ (∃ ex, y.2 = ObjException ex)).

(** The exception object [e], yielded with identifier [fn] by the walker
    of the project at [path], is the exception [ex] that the parse of a
    unit of that project named [fn] raised, with the formatted traceback
    stored on it. *)
Definition unit_error (path : Path) (verbose : Z) (fn : Path) (e : Exn) : Prop :=
  ∃ project name item text st0 ex,
    pytmc_parse path = Ok project ∧
    (name, item) ∈ project_items project ∧
    fn = filename item ∧
    item_get_source_code item = Some (Ok (Some text)) ∧
    (parse_source_code text verbose fn None None true st0).1 = Raise ex ∧
    e = set_traceback ex (format_exc ex) ∧
    exc_attrs e !! "traceback" = Some (format_exc ex).

(** The exception object [e], yielded with identifier [fn] by the handler
    of [parse], is the exception [ex] that processing the file [fn]
    raised, with the formatted traceback stored on it. *)
Definition file_error (fn : Path) (e : Exn) : Prop :=
  ∃ ex st0,
    (finish (parse_project fn 0 true st0) = Raise ex ∨
     (parse_single_file fn true st0).1 = Raise ex) ∧
    e = set_traceback ex (format_exc ex) ∧
    exc_attrs e !! "traceback" = Some (format_exc ex).

Definition caught_by_parse_project (path : Path) (verbose : Z)
    (y : Path * PyObj) : Prop :=
  ∀ e, y.2 = ObjException e → unit_error path verbose y.1 e.

Definition caught_by_parse (y : Path * PyObj) : Prop :=
  ∀ e, y.2 = ObjException e →
    (∃ project_path, unit_error project_path 0 y.1 e) ∨ file_error y.1 e.

End Parse.

(** ** The documentation cache ([blark/sphinxdomain.py]) *)

(** [repr] of a text.  A text is a sequence of code points below 256.
    The quote is the single quote, unless the text holds a single quote
    and no double quote.  The quote and the backslash are escaped with a
    backslash; tab, newline and carriage return are written [\t], [\n]
    and [\r]; every other code point that is not printable is written
    [\x] followed by its two lowercase hexadecimal digits. *)
Definition single_quote : ascii := "039"%char.
Definition double_quote : ascii := "034"%char.
Definition backslash : ascii := "092"%char.

Fixpoint has_char (c : ascii) (s : string) : bool :=
  match s with
  | EmptyString => false
  | String c' s' => bool_decide (c' = c) || has_char c s'
  end.

Definition hex_digit (n : nat) : ascii :=
  default "0"%char (String.get n "0123456789abcdef").

(** [str.isprintable] on one code point below 256: the controls, the
    no-break space (160) and the soft hyphen (173) are not printable. *)
Definition printable (c : ascii) : bool :=
  let n := nat_of_ascii c in
  ((32 <=? n) && (n <? 127) || (161 <=? n) && negb (n =? 173))%nat.

Definition escape (quote c : ascii) : string :=
  if bool_decide (c = quote) || bool_decide (c = backslash)
  then String backslash (String c "")
  else if bool_decide (c = "009"%char) then String backslash "t"
  else if bool_decide (c = "010"%char) then String backslash "n"
  else if bool_decide (c = "013"%char) then String backslash "r"
  else if printable c then String c ""
  else
    let n := nat_of_ascii c in
    String backslash
      (String "x" (String (hex_digit (n / 16)) (String (hex_digit (n mod 16)) ""))).

Fixpoint escaped (quote : ascii) (s : string) : string :=
  match s with
  | EmptyString => EmptyString
  | String c s' => escape quote c +:+ escaped quote s'
  end.

Definition repr (s : string) : string :=
  let quote :=
    if has_char single_quote s && negb (has_char double_quote s)
    then double_quote else single_quote in
  String quote (escaped quote s +:+ String quote "").

(** [KeyError(arg)]: the [str] of a [KeyError] with one argument is the
    [repr] of that argument. *)
Definition KeyError (arg : string) : Exn := mkExn "KeyError" (repr arg) ∅.

(** [d[k]] *)
Definition dict_getitem {V} (d : dict V) (k : string) : Res V :=
  match dict_get d k with
  | Some v => Ok v
  | None => Raise (KeyError k)
  end.

Record BlarkSphinxCache := {
  cache : dict CodeSummary;
}.

(** The loop of [find_by_name] over [self.cache.values()]. *)
Fixpoint find_by_name_in (values : list CodeSummary) (name : string)
    : Res FunctionBlockSummary :=
  match values with
  | [] => Raise (KeyError (repr name +:+ " not found"))
  | item :: rest =>
      match dict_getitem (function_blocks item) name with
      | Ok fb => Ok fb
      | Raise ex =>
          if bool_decide (exc_type ex = "KeyError")
          then find_by_name_in rest name
          else Raise ex
      end
  end.

Definition find_by_name (self : BlarkSphinxCache) (name : string)
    : Res FunctionBlockSummary :=
  find_by_name_in (dict_values (cache self)) name.

(** ** The documentation domain ([blark/sphinxdomain.py])

    Texts are sequences of characters; the string methods the code calls
    are written out for the arguments it calls them with. *)
Module Domain.

(** [c in chars] *)
Fixpoint char_in (c : ascii) (chars : string) : bool :=
  match chars with
  | EmptyString => false
  | String c' chars' => bool_decide (c = c') || char_in c chars'
  end.

(** [s.lstrip(chars)] *)
Fixpoint lstrip (chars : string) (s : string) : string :=
  match s with
  | EmptyString => EmptyString
  | String c s' => if char_in c chars then lstrip chars s' else s
  end.

(** [s[n:]] for [n] not negative *)
Fixpoint drop_chars (n : nat) (s : string) : string :=
  match n, s with
  | O, _ => s
  | S n', EmptyString => EmptyString
  | S n', String _ s' => drop_chars n' s'
  end.

(** [s[0:n]] *)
Fixpoint take_chars (n : nat) (s : string) : string :=
  match n, s with
  | O, _ => EmptyString
  | S n', EmptyString => EmptyString
  | S n', String c s' => String c (take_chars n' s')
  end.

(** The highest index at which [c] occurs in [s], if any. *)
Fixpoint last_index (c : ascii) (s : string) : option nat :=
  match s with
  | EmptyString => None
  | String c' s' =>
      match last_index c s' with
      | Some i => Some (S i)
      | None => if bool_decide (c' = c) then Some O else None
      end
  end.

(** [s.rfind(c)] for a one-character [c] *)
Definition rfind (c : ascii) (s : string) : Z :=
  match last_index c s with
  | Some i => Z.of_nat i
  | None => -1
  end.

(** [c in s] for a one-character [c] *)
Definition contains (c : ascii) (s : string) : bool := char_in c s.

(** [s[0:1] == c] for a one-character [c] *)
Definition starts_with (c : ascii) (s : string) : bool :=
  match s with
  | String c' _ => bool_decide (c' = c)
  | EmptyString => false
  end.

(** [s.split(c)] for a one-character [c]: never empty. *)
Fixpoint split (c : ascii) (s : string) : list string :=
  match s with
  | EmptyString => [EmptyString]
  | String c' s' =>
      if bool_decide (c' = c) then EmptyString :: split c s'
      else match split c s' with
           | part :: parts => String c' part :: parts
           | [] => [String c' EmptyString]
           end
  end.

(** [s.split(c, 1)] for a one-character [c]: one or two parts. *)
Fixpoint split_once (c : ascii) (s : string) : list string :=
  match s with
  | EmptyString => [EmptyString]
  | String c' s' =>
      if bool_decide (c' = c) then [EmptyString; s']
      else match split_once c s' with
           | part :: parts => String c' part :: parts
           | [] => [String c' EmptyString]
           end
  end.

Definition IndexError (msg : string) : Exn := mkExn "IndexError" msg ∅.

(** [l[0]] *)
Definition first_item {A} (l : list A) : Res A :=
  match l with
  | x :: _ => Ok x
  | [] => Raise (IndexError "list index out of range")
  end.

(** [BlarkXRefRole.process_link]: returns what it stores under
    [refnode["bk:scope"]], a copy of the scope of the reference context,
    and the title and target it returns. *)
Definition process_link (ref_context : dict (list string))
    (has_explicit_title : bool) (title target : string)
    : list string * string * string :=
  let scope := default [] (dict_get ref_context "bk:scope") in
  if negb has_explicit_title then
    let title := lstrip "." title in
    let target := lstrip "~" target in
    if bool_decide (take_chars 1 title = "~") then
      let title := drop_chars 1 title in
      let dot := rfind "." title in
      if bool_decide (dot ≠ -1)
      then (scope, drop_chars (Z.to_nat (dot + 1)) title, target)
      else (scope, title, target)
    else (scope, title, target)
  else (scope, title, target).

(** *** The domain data *)

(** One registration of an object in a document. *)
Record Entry := {
  entry_docname : string;
  entry_scope : list string;
  entry_qualified_name : string;
}.

(** Object type to qualified name to registrations. *)
Definition DomainData := dict (dict (list Entry)).

(** [BlarkDomain.initial_data] *)
Definition initial_data : DomainData :=
  [ ("module", []); ("type", []); ("functionblock", []);
    ("parameter", []); ("method", []); ("action", []) ].

(** [BlarkDomain.object_types]: type name to the roles that find it. *)
Definition object_types : dict (list string) :=
  [ ("functionblock", ["func"; "fb"]);
    ("type", ["type"]);
    ("module", ["mod"]);
    ("parameter", ["parameter"]) ].

(** [BlarkDomain.find_obj]; [domaindata] is [self.env.domaindata["bk"]]. *)
Definition find_obj (domaindata : DomainData) (rolename targetstring : string)
    : Res (list Entry) :=
  match List.find (λ objtype, bool_decide (rolename ∈ objtype.2)) object_types with
  | None => Ok []
  | Some (typename, _) =>
      match dict_getitem domaindata typename with
      | Raise ex => Raise ex
      | Ok data => Ok (default [] (dict_get data targetstring))
      end
  end.

(** What [make_refnode] is called with: the document the reference is
    in, the document and the id it points to, and its title. *)
Record RefNode := {
  ref_fromdocname : string;
  ref_todocname : string;
  ref_targetid : string;
  ref_title : string;
}.

(** [", ".join(names)] *)
Fixpoint join_names (names : list string) : string :=
  match names with
  | [] => ""
  | [name] => name
  | name :: rest => name +:+ ", " +:+ join_names rest
  end.

(** [BlarkDomain.resolve_xref]: the node it returns, if any, and the
    warnings it logs. *)
Definition resolve_xref (domaindata : DomainData) (fromdocname typ target : string)
    : Res (option RefNode * list string) :=
  match find_obj domaindata typ target with
  | Raise ex => Raise ex
  | Ok [] =>
      Ok (None, ["No target found for cross-reference: " +:+ target])
  | Ok ((first :: others) as found) =>
      let warnings :=
        match others with
        | [] => []
        | _ => [ "More than one target found for cross-reference "
                 +:+ repr target +:+ ": "
                 +:+ join_names (entry_qualified_name <$> found) ]
        end in
      Ok (Some {| ref_fromdocname := fromdocname;
                  ref_todocname := entry_docname first;
                  ref_targetid := entry_qualified_name first;
                  ref_title := target |}, warnings)
  end.

(** [l.pop(i)] for [i] not negative. *)
Definition pop {A} (i : nat) (l : list A) : Res (list A) :=
  if decide (i < length l)%nat then Ok (delete i l)
  else Raise (IndexError "pop index out of range").

(** The first loop over one list of registrations in [clear_doc]: the
    indices of those of [docname], each inserted at the front. *)
Definition items_to_delete (docname : string) (methods : list Entry) : list nat :=
  foldl (λ items im,
           if bool_decide (entry_docname im.2 = docname) then im.1 :: items
           else items)
        [] (zip (seq 0 (length methods)) methods).

(** The second loop: [for i in items_to_delete: methods.pop(i)]; the
    list as it is when the loop ends or raises. *)
Fixpoint pop_each (items : list nat) (methods : list Entry)
    : Res unit * list Entry :=
  match items with
  | [] => (Ok tt, methods)
  | i :: rest =>
      match pop i methods with
      | Ok methods' => pop_each rest methods'
      | Raise ex => (Raise ex, methods)
      end
  end.

(** The loop over [dictionary.items()]. *)
Fixpoint clear_dictionary (docname : string) (dictionary : dict (list Entry))
    : Res unit * dict (list Entry) :=
  match dictionary with
  | [] => (Ok tt, [])
  | (name, methods) :: rest =>
      match pop_each (items_to_delete docname methods) methods with
      | (Ok _, methods') =>
          let '(r, rest') := clear_dictionary docname rest in
          (r, (name, methods') :: rest')
      | (Raise ex, methods') => (Raise ex, (name, methods') :: rest)
      end
  end.

(** The loop over [self.initial_data.keys()]; the lists are changed in
    place, so the data is returned as it is when the loop ends or raises. *)
Fixpoint clear_tables (docname : string) (dicnames : list string)
    (dictionaries : DomainData) : Res unit * DomainData :=
  match dicnames with
  | [] => (Ok tt, dictionaries)
  | dicname :: rest =>
      match dict_getitem dictionaries dicname with
      | Raise ex => (Raise ex, dictionaries)
      | Ok dictionary =>
          let '(r, dictionary') := clear_dictionary docname dictionary in
          let dictionaries' := dict_set dictionaries dicname dictionary' in
          match r with
          | Ok _ => clear_tables docname rest dictionaries'
          | Raise ex => (Raise ex, dictionaries')
          end
      end
  end.

(** [BlarkDomain.clear_doc]; [dictionaries] is [self.env.domaindata["bk"]]. *)
Definition clear_doc (docname : string) (dictionaries : DomainData)
    : Res unit * DomainData :=
  clear_tables docname (dict_keys initial_data) dictionaries.

(** [domaindata[objtype].setdefault(qualified_name, []).append(item)],
    the last line of [BlarkNode.register]. *)
Definition add_entry (objtype qualified_name : string) (item : Entry)
    (domaindata : DomainData) : Res unit * DomainData :=
  match dict_getitem domaindata objtype with
  | Raise ex => (Raise ex, domaindata)
  | Ok table =>
      let registered := default [] (dict_get table qualified_name) in
      (Ok tt,
       dict_set domaindata objtype
         (dict_set table qualified_name (registered ++ [item])))
  end.

(** *** Nodes *)

(** [summary.py] is not among the sources at hand; the nodes read a
    [source_code] attribute from the summary records, which is taken here
    as given. *)
Class SummarySources := {
  fb_source_code : FunctionBlockSummary → string;
  method_source_code : MethodSummary → string;
  action_source_code : ActionSummary → string;
}.

(** docutils is not among the sources at hand.  The nodes are built by
    [nodes.Element.__init__(self, rawsource='', *children, **attributes)]:
    the first positional argument is bound to [rawsource], and only the
    positional arguments after it become children.  Whether an element is
    accepted as [rawsource] depends on the version of docutils: some
    store whatever they are given, others raise a [TypeError];
    [rawsource_refused] is the message of that error, [None] for a
    version that stores. *)
Class Docutils := {
  rawsource_refused : option string;
}.

Definition TypeError (msg : string) : Exn := mkExn "TypeError" msg ∅.

(** The nodes of the domain, each with the keyword arguments its
    constructor is called with and, for the two classes with
    declarations, the [rawsource] and the children its positional
    arguments are bound to ([rawsource] is [None] when there is no
    positional argument); [DocutilsNode] is any node that is not a
    [BlarkNode]. *)
Inductive Node :=
| ParameterNode (name : string) (owner : FunctionBlockSummary)
    (decl : Declaration) (ids : list string)
| ActionNode (name : string) (ids : list string) (source_code : string)
| MethodNode (rawsource : option Node) (children : list Node) (name : string)
    (ids : list string) (declarations : DeclarationBlock) (source_code : string)
| FunctionBlockNode (rawsource : option Node) (children : list Node)
    (name : string) (ids : list string) (declarations : DeclarationBlock)
    (source_code : string)
| DocutilsNode.

(** [isinstance(node, BlarkNode)] *)
Definition is_blark_node (node : Node) : bool :=
  match node with DocutilsNode => false | _ => true end.

(** The class attribute [objtype]. *)
Definition objtype (node : Node) : string :=
  match node with
  | ParameterNode _ _ _ _ => "parameter"
  | ActionNode _ _ _ => "action"
  | MethodNode _ _ _ _ _ _ => "method"
  | FunctionBlockNode _ _ _ _ _ _ => "functionblock"
  | DocutilsNode => ""
  end.

(** [self["ids"]] *)
Definition ids (node : Node) : list string :=
  match node with
  | ParameterNode _ _ _ ids | ActionNode _ ids _ | MethodNode _ _ _ ids _ _
  | FunctionBlockNode _ _ _ ids _ _ => ids
  | DocutilsNode => []
  end.

Definition children (node : Node) : list Node :=
  match node with
  | MethodNode _ children _ _ _ _ | FunctionBlockNode _ children _ _ _ _ =>
      children
  | _ => []
  end.

Definition rawsource (node : Node) : option Node :=
  match node with
  | MethodNode rawsource _ _ _ _ _ | FunctionBlockNode rawsource _ _ _ _ _ =>
      rawsource
  | _ => None
  end.

(** [BlarkNode.qualified_name]: [self["ids"][0]] *)
Definition qualified_name (node : Node) : Res string := first_item (ids node).

(** [parts[-1]] for the parts of a split, which are never empty. *)
Definition last_part (parts : list string) : string := default "" (last parts).

(** [BlarkNode.name]: [self["ids"][0].split(".")[-1]] *)
Definition name (node : Node) : Res string :=
  match first_item (ids node) with
  | Ok id => Ok (last_part (split "." id))
  | Raise ex => Raise ex
  end.

(** [BlarkNode.register]: the registration of the node itself. *)
Definition register_self (node : Node) (docname : string) (scope : list string)
    (domaindata : DomainData) : Res unit * DomainData :=
  match qualified_name node with
  | Raise ex => (Raise ex, domaindata)
  | Ok qualified =>
      let item := {| entry_docname := docname;
                     entry_scope := scope;
                     entry_qualified_name := qualified |} in
      add_entry (objtype node) qualified item domaindata
  end.

(** [register]: that of [BlarkNode] for parameters and actions, that of
    [ElementWithDeclarations] for methods and function blocks, which goes
    on with the children that are [BlarkNode]s. *)
Fixpoint register (node : Node) (docname : string) (scope : list string)
    (domaindata : DomainData) : Res unit * DomainData :=
  let register_children :=
    fix register_children (nodes : list Node) (domaindata : DomainData)
        : Res unit * DomainData :=
      match nodes with
      | [] => (Ok tt, domaindata)
      | child :: rest =>
          if is_blark_node child then
            match register child docname scope domaindata with
            | (Ok _, domaindata') => register_children rest domaindata'
            | (Raise ex, domaindata') => (Raise ex, domaindata')
            end
          else register_children rest domaindata
      end in
  match node with
  | MethodNode _ children _ _ _ _ | FunctionBlockNode _ children _ _ _ _ =>
      match register_self node docname scope domaindata with
      | (Ok _, domaindata') => register_children children domaindata'
      | (Raise ex, domaindata') => (Raise ex, domaindata')
      end
  | _ => register_self node docname scope domaindata
  end.

(** The loop over the children in [ElementWithDeclarations.register]. *)
Fixpoint register_each (nodes : list Node) (docname : string)
    (scope : list string) (domaindata : DomainData) : Res unit * DomainData :=
  match nodes with
  | [] => (Ok tt, domaindata)
  | child :: rest =>
      if is_blark_node child then
        match register child docname scope domaindata with
        | (Ok _, domaindata') => register_each rest docname scope domaindata'
        | (Raise ex, domaindata') => (Raise ex, domaindata')
        end
      else register_each rest docname scope domaindata
  end.

(** [d.update(other)] *)
Definition dict_update {V} (d other : dict V) : dict V :=
  foldl (λ d kv, dict_set d kv.1 kv.2) d other.

(** [ElementWithDeclarations.get_render_context]: the lists it returns
    under [inputs] and [outputs]; [None] for a node of a class without
    this method. *)
Definition get_render_context (node : Node)
    : option (list Declaration * list Declaration) :=
  match node with
  | MethodNode _ _ _ _ decls _ | FunctionBlockNode _ _ _ _ decls _ =>
      let inputs := default [] (dict_get decls "InputDeclarations") in
      let inputs :=
        dict_update inputs
          (default [] (dict_get decls "InputOutputDeclarations")) in
      let outputs := default [] (dict_get decls "OutputDeclarations") in
      Some (dict_values inputs, dict_values outputs)
  | _ => None
  end.

Section Nodes.
Context `{SummarySources} `{Docutils}.

(** How [Element.__init__] binds the positional arguments the class is
    called with. *)
Definition Element_init (positional : list Node)
    : Res (option Node * list Node) :=
  match positional with
  | [] => Ok (None, [])
  | rawsource :: children =>
      match rawsource_refused with
      | Some msg => Raise (TypeError msg)
      | None => Ok (Some rawsource, children)
      end
  end.

(** [[f(x) for x in l]] *)
Fixpoint comprehension {A B} (f : A → Res B) (l : list A) : Res (list B) :=
  match l with
  | [] => Ok []
  | x :: rest =>
      match f x with
      | Raise ex => Raise ex
      | Ok y =>
          match comprehension f rest with
          | Raise ex => Raise ex
          | Ok ys => Ok (y :: ys)
          end
      end
  end.

(** [ParameterNode.from_decl] *)
Definition from_decl (owner : FunctionBlockSummary) (decl : Declaration) : Node :=
  ParameterNode (decl_name decl) owner decl
    [fbs_name owner +:+ "." +:+ decl_name decl].

(** [ActionNode.from_action] *)
Definition from_action (fb : FunctionBlockSummary) (action : ActionSummary)
    : Node :=
  ActionNode (as_name action) [fbs_name fb +:+ "." +:+ as_name action]
    (action_source_code action).

(** One [ParameterNode] for every declaration of every block, in order:
    [for block, decls in declarations_by_block.items()
       for decl in decls.values()]. *)
Definition parameter_nodes (fb : FunctionBlockSummary)
    (declarations_by_block : DeclarationBlock) : list Node :=
  concat ((λ decls : dict Declaration, from_decl fb <$> dict_values decls)
            <$> dict_values declarations_by_block).

(** [MethodNode.from_method]: the parameters are made with the function
    block as owner, and handed to the constructor as positional
    arguments. *)
Definition from_method (fb : FunctionBlockSummary) (method : MethodSummary)
    : Res Node :=
  let children := parameter_nodes fb (ms_declarations method) in
  match Element_init children with
  | Raise ex => Raise ex
  | Ok (rawsource, children) =>
      Ok (MethodNode rawsource children (ms_name method)
            [fbs_name fb +:+ "." +:+ ms_name method]
            (ms_declarations method) (method_source_code method))
  end.

(** [FunctionBlockNode.from_fb]: parameters, then actions, then methods,
    handed to the constructor as positional arguments. *)
Definition from_fb (fb : FunctionBlockSummary) : Res Node :=
  let children := parameter_nodes fb (fbs_declarations fb) in
  let children := children ++ (from_action fb <$> fbs_actions fb) in
  match comprehension (from_method fb) (fbs_methods fb) with
  | Raise ex => Raise ex
  | Ok methods =>
      let children := children ++ methods in
      match Element_init children with
      | Raise ex => Raise ex
      | Ok (rawsource, children) =>
          Ok (FunctionBlockNode rawsource children (fbs_name fb) [fbs_name fb]
                (fbs_declarations fb) (fb_source_code fb))
      end
  end.

(** The environment of a directive. *)
Record Environment := {
  ref_context : dict (list string);
  env_docname : string;
  domaindata : dict DomainData;
}.

(** What [BlarkDirective.run] leaves behind: what it returns or raises,
    the domain data, the [domain] and [objtype] it stores on the
    directive, and the errors it logs. *)
Record Ran := {
  returned : Res (list Node);
  domaindata_after : dict DomainData;
  directive_domain : string;
  directive_objtype : string;
  logged : list string;
}.

(** [BlarkDirective.run]; [directive_name] is [self.name], [cache] is
    [BlarkSphinxCache.instance()], and [transform_all] what
    [DocFieldTransformer(self).transform_all] does to the node. *)
Definition run (transform_all : Node → Node) (directive_name : string)
    (arguments : list string) (env : Environment) (cache : BlarkSphinxCache)
    : Ran :=
  let '(domain, objtype) :=
    if contains ":" directive_name then
      match split_once ":" directive_name with
      | [domain; objtype] => (domain, objtype)
      | _ => ("", directive_name)
      end
    else ("", directive_name) in
  let result returned domaindata logged :=
    {| returned := returned; domaindata_after := domaindata;
       directive_domain := domain; directive_objtype := objtype;
       logged := logged |} in
  match first_item arguments with
  | Raise ex => result (Raise ex) (domaindata env) []
  | Ok obj_name =>
      let scope := default [] (dict_get (ref_context env) "bk:scope") in
      let docname := env_docname env in
      match dict_getitem (domaindata env) "bk" with
      | Raise ex => result (Raise ex) (domaindata env) []
      | Ok bk =>
          match find_by_name cache obj_name with
          | Raise ex =>
              if bool_decide (exc_type ex = "KeyError")
              then result (Ok []) (domaindata env)
                     ["Could not find: " +:+ obj_name]
              else result (Raise ex) (domaindata env) []
          | Ok obj =>
              match from_fb obj with
              | Raise ex => result (Raise ex) (domaindata env) []
              | Ok node =>
                  match register node docname scope bk with
                  | (Raise ex, bk') =>
                      result (Raise ex) (dict_set (domaindata env) "bk" bk') []
                  | (Ok _, bk') =>
                      result (Ok [transform_all node])
                        (dict_set (domaindata env) "bk" bk') []
                  end
              end
          end
      end
  end.

End Nodes.

(** What is registered under [qualified_name] in the table of [objtype]:
    [domaindata[objtype].get(qualified_name, [])], and nothing when the
    table is missing. *)
Definition registrations (domaindata : DomainData)
    (objtype qualified_name : string) : list Entry :=
  match dict_get domaindata objtype with
  | Some table => default [] (dict_get table qualified_name)
  | None => []
  end.

(** The tables a function block node and its children register in. *)
Definition node_tables : list string :=
  ["functionblock"; "parameter"; "action"; "method"].

Definition tables_ready (domaindata : DomainData) : Prop :=
  ∀ objtype, objtype ∈ node_tables → is_Some (dict_get domaindata objtype).

(** From [domaindata] to [domaindata'] the same tables exist and the
    table of [objtype] holds the same registrations. *)
Definition untouched (objtype : string) (domaindata domaindata' : DomainData)
    : Prop :=
  (∀ table, is_Some (dict_get domaindata' table)
            ↔ is_Some (dict_get domaindata table)) ∧
  (∀ name, registrations domaindata' objtype name
           = registrations domaindata objtype name).

(** The registration of the object [qualified] in the document
    [docname]. *)
Definition entry_for (docname : string) (scope : list string)
    (qualified : string) : Entry :=
  {| entry_docname := docname; entry_scope := scope;
     entry_qualified_name := qualified |}.

(** The node a reference resolves to when [first] is the first
    registration of its target. *)
Definition reference_to (fromdocname target : string) (first : Entry) : RefNode :=
  {| ref_fromdocname := fromdocname;
     ref_todocname := entry_docname first;
     ref_targetid := entry_qualified_name first;
     ref_title := target |}.

(** The roles that find something, each with the table it looks in. *)
Definition role_tables : list (string * string) :=
  [ ("func", "functionblock"); ("fb", "functionblock"); ("type", "type");
    ("mod", "module"); ("parameter", "parameter") ].

(** The registrations made in another document than [docname]. *)
Definition kept (docname : string) (methods : list Entry) : list Entry :=
  filter (λ entry, entry_docname entry ≠ docname) methods.

End Domain.

(** ** What a run of [parse_source_code] logs *)

Section ParseRuns.
Context `{Collaborators}.

(** The six lines printed on a grammar failure when [verbose > 1]. *)
Definition failure_report (source_code : string) (fn : Path) (ex : Exn)
    : list Event :=
  EvPrint <$> [ "[Failure] Parse failure"; dashes; source_code; dashes;
                exc_type ex +:+ " " +:+ exc_msg ex; "[Failure] " +:+ fn ].

(** The seven lines printed after a successful parse when [verbose > 2]. *)
Definition success_report (source_code : string) (fn : Path) (tree : Tree)
    : list Event :=
  EvPrint <$> [ "Successfully parsed " +:+ fn +:+ ":"; dashes; source_code;
                dashes; tree_pretty tree; dashes; "[Success] End of " +:+ fn ].

(** The shared engine has to be built: none was handed in and none is
    stored. *)
Definition builds_engine (parser : option Lark) (st : State) : bool :=
  match parser, _PARSER st with
  | None, None => true
  | _, _ => false
  end.

(** The call gets as far as asking for an engine: preprocessing and
    comment extraction succeed. *)
Definition reaches_engine (source_code : string)
    (preprocessors : option (list Preprocessor)) : bool :=
  match preprocess (default DEFAULT_PREPROCESSORS preprocessors) source_code with
  | Ok text => is_ok (find_and_clean_comments text)
  | Raise _ => false
  end.

(** Everything a call of [parse_source_code] entered in state [st] logs,
    in order. *)
Definition parse_events (source_code : string) (verbose : Z) (fn : Path)
    (preprocessors : option (list Preprocessor)) (parser : option Lark)
    (transform : bool) (st : State) : list Event :=
  let preprocessors := default DEFAULT_PREPROCESSORS preprocessors in
  preprocess_calls preprocessors source_code ++
  match preprocess preprocessors source_code with
  | Raise _ => []
  | Ok text =>
      EvFindAndCleanComments text ::
      match find_and_clean_comments text with
      | Raise _ => []
      | Ok (comments, clean) =>
          let engine := engine_for parser st in
          (if builds_engine parser st then [EvNewParser engine] else []) ++
          EvLarkParse engine clean ::
          match lark_parse engine clean with
          | Raise ex =>
              if 1 <? verbose then failure_report source_code fn ex else []
          | Ok tree =>
              (if 2 <? verbose then success_report source_code fn tree else [])
              ++ (if transform then [EvTransform fn source_code] else [])
          end
      end
  end.

(** The state a call of [parse_source_code] entered in state [st]
    leaves. *)
Definition state_after_parse (source_code : string) (verbose : Z) (fn : Path)
    (preprocessors : option (list Preprocessor)) (parser : option Lark)
    (transform : bool) (st : State) : State :=
  let built := reaches_engine source_code preprocessors
               && builds_engine parser st in
  {| _PARSER := if built then Some (engine_for parser st) else _PARSER st;
     next_id := if built then S (next_id st) else next_id st;
     trace := trace st ++ parse_events source_code verbose fn preprocessors
                            parser transform st |}.

End ParseRuns.

(** The call of a preprocessor or of the comment extractor. *)
Definition before_engine (ev : Event) : Prop :=
  match ev with
  | EvPreprocess _ _ | EvFindAndCleanComments _ => True
  | _ => False
  end.

Definition is_print (ev : Event) : bool :=
  match ev with EvPrint _ => true | _ => false end.

(** The lines printed so far. *)
Definition printed (st : State) : list Event :=
  List.filter is_print (trace st).

(** The state without what was printed. *)
Definition quiet (st : State) : State :=
  {| _PARSER := _PARSER st;
     next_id := next_id st;
     trace := List.filter (λ ev, negb (is_print ev)) (trace st) |}.

(** From [st] to [st'] at most one engine was built, and only if none
    was stored; an engine that is stored stays. *)
Definition once (st st' : State) : Prop :=
  match _PARSER st with
  | Some p => _PARSER st' = Some p ∧ constructions st' = constructions st
  | None =>
      (_PARSER st' = None ∧ constructions st' = constructions st) ∨
      (is_Some (_PARSER st') ∧ constructions st' = S (constructions st))
  end.

(** ** A small concrete world

    Stand-ins for the collaborators, small enough to run the walker by
    hand: the grammar accepts exactly the texts that start with
    [FUNCTION_BLOCK ], there are no comments, and the transformer names the
    one function block after the text it was given. *)
Module Demo.

Definition lower_ascii (c : ascii) : ascii :=
  let n := nat_of_ascii c in
  if ((65 <=? n) && (n <=? 90))%nat then ascii_of_nat (n + 32) else c.

Fixpoint lower (s : string) : string :=
  match s with
  | EmptyString => EmptyString
  | String c s' => String (lower_ascii c) (lower s')
  end.

(** The part of a path from its last dot on. *)
Fixpoint suffix (s : string) : string :=
  match s with
  | EmptyString => EmptyString
  | String c s' =>
      match suffix s' with
      | EmptyString => if bool_decide (c = "."%char) then s else EmptyString
      | found => found
      end
  end.

Definition unexpected_input : Exn :=
  mkExn "UnexpectedCharacters" "No terminal matches" ∅.

Definition unit_of (name text : string) : string * SourceItem :=
  (name, {| filename := name +:+ ".TcPOU";
            item_get_source_code := Some (Ok (Some text)) |}).

Definition axis := unit_of "ST_Axis" "FUNCTION_BLOCK ST_Axis".
Definition globals := unit_of "GVL_Main" "VAR_GLOBAL".
Definition motor := unit_of "FB_Motor" "FUNCTION_BLOCK FB_Motor".
Definition broken := unit_of "FB_Broken" "END_FUNCTION_BLOCK".
Definition empty := unit_of "FB_Empty" "".
Definition folder : string * SourceItem :=
  ("Folder", {| filename := "Folder"; item_get_source_code := None |}).

(** Three units, the second one malformed. *)
Definition plant : Project :=
  {| plcs := [ {| dut_by_name := [axis];
                  gvl_by_name := [globals];
                  pou_by_name := [motor] |} ] |}.

(** A malformed unit followed by a unit whose accessor returns an empty
    text and by a folder entry without accessor. *)
Definition legacy : Project :=
  {| plcs := [ {| dut_by_name := [];
                  gvl_by_name := [];
                  pou_by_name := [broken; empty; folder] |} ] |}.

(** Three units, only the second one malformed, the third one with an
    empty text. *)
Definition mixed : Project :=
  {| plcs := [ {| dut_by_name := [axis];
                  gvl_by_name := [];
                  pou_by_name := [broken; empty] |} ] |}.

(** [legacy] without the unit whose text is empty. *)
Definition trimmed : Project :=
  {| plcs := [ {| dut_by_name := [];
                  gvl_by_name := [];
                  pou_by_name := [broken; folder] |} ] |}.

Definition no_such_file (path : Path) : Exn :=
  mkExn "FileNotFoundError" path ∅.

Definition collaborators : Collaborators :=
  {| Tree := string;
     lark_parse := λ _ text,
       if String.prefix "FUNCTION_BLOCK " text then Ok text
       else Raise unexpected_input;
     tree_pretty := λ tree, tree;
     find_and_clean_comments := λ text, Ok ([], text);
     transformer_transform := λ comments fn source_code tree,
       Ok {| items := [ {| fb_name := tree; fb_declarations := [];
                           fb_methods := []; fb_actions := [] |} ];
             sc_filename := fn;
             raw_source := source_code;
             sc_comments := comments |};
     get_source_code := λ fn,
       if bool_decide (fn = "FB_Motor.TcPOU") then Ok "FUNCTION_BLOCK FB_Motor"
       else Raise (no_such_file fn);
     pytmc_parse := λ path,
       if bool_decide (path = "plant.tsproj") then Ok plant
       else if bool_decide (path = "legacy.tsproj") then Ok legacy
       else if bool_decide (path = "trimmed.tsproj") then Ok trimmed
       else if bool_decide (path = "mixed.tsproj") then Ok mixed
       else Raise (no_such_file path);
     projects_from_solution := λ _, Ok ["plant.tsproj"; "legacy.tsproj"];
     suffix_lower := λ path, lower (suffix path);
     format_exc := λ ex,
       "Traceback (most recent call last): " +:+ exc_type ex +:+ ": " +:+ exc_msg ex |}.

(** A fresh process: no engine yet, nothing logged. *)
Definition fresh : State := mkState None 0 [].



Definition expand_macros : Preprocessor :=
  {| pp_name := "expand_macros";
     pp_call := λ text, Ok ("FUNCTION_BLOCK " +:+ text) |}.

Definition add_end : Preprocessor :=
  {| pp_name := "add_end";
     pp_call := λ text, Ok (text +:+ " END_FUNCTION_BLOCK") |}.

Definition motor_summary : FunctionBlockSummary :=
  {| fbs_name := "FB_Motor"; fbs_declarations := [];
     fbs_methods := [ {| ms_name := "Start"; ms_declarations := [] |};
                      {| ms_name := "Stop"; ms_declarations := [] |} ];
     fbs_actions := [] |}.

Definition other_motor_summary : FunctionBlockSummary :=
  {| fbs_name := "FB_Motor"; fbs_declarations := [];
     fbs_methods := []; fbs_actions := [] |}.

Definition valve_summary : FunctionBlockSummary :=
  {| fbs_name := "FB_Valve"; fbs_declarations := [];
     fbs_methods := []; fbs_actions := [] |}.

(** Two units that both declare [FB_Motor]. *)
Definition docs_cache : BlarkSphinxCache :=
  {| cache :=
       [ ("valves.TcPOU", {| function_blocks := [("FB_Valve", valve_summary)] |});
         ("motors.TcPOU", {| function_blocks := [("FB_Motor", motor_summary)] |});
         ("old_motors.TcPOU",
            {| function_blocks := [("FB_Motor", other_motor_summary)] |}) ] |}.

End Demo.

(** ** More of the concrete world: a solution and a documentation set *)
Module Site.

(** A preprocessor that rejects every text. *)
Definition strict : Preprocessor :=
  {| pp_name := "strict";
     pp_call := λ text, Raise (mkExn "ValueError" "unsupported dialect" ∅) |}.

(** A unit whose source accessor raises: its file is gone. *)
Definition linked : string * SourceItem :=
  ("FB_Linked",
   {| filename := "FB_Linked.TcPOU";
      item_get_source_code :=
        Some (Raise (Demo.no_such_file "FB_Linked.TcPOU")) |}).

(** A malformed unit, a well-formed one, the unit whose accessor raises,
    and another well-formed one. *)
Definition guarded : Project :=
  {| plcs := [ {| dut_by_name := [Demo.globals; Demo.axis];
                  gvl_by_name := [];
                  pou_by_name := [linked; Demo.motor] |} ] |}.

(** The world of [Demo], with the project [guarded] and a solution
    whose second project is missing. *)
Definition collaborators : Collaborators :=
  {| Tree := string;
     lark_parse := lark_parse (Collaborators := Demo.collaborators);
     tree_pretty := tree_pretty (Collaborators := Demo.collaborators);
     find_and_clean_comments :=
       find_and_clean_comments (Collaborators := Demo.collaborators);
     transformer_transform :=
       transformer_transform (Collaborators := Demo.collaborators);
     get_source_code := get_source_code (Collaborators := Demo.collaborators);
     pytmc_parse := λ path,
       if bool_decide (path = "guarded.tsproj") then Ok guarded
       else pytmc_parse (Collaborators := Demo.collaborators) path;
     projects_from_solution := λ _,
       Ok ["plant.tsproj"; "missing.tsproj"; "legacy.tsproj"];
     suffix_lower := suffix_lower (Collaborators := Demo.collaborators);
     format_exc := format_exc (Collaborators := Demo.collaborators) |}.

Definition motor_code : SourceCode :=
  {| items := [ {| fb_name := "FUNCTION_BLOCK FB_Motor"; fb_declarations := [];
                   fb_methods := []; fb_actions := [] |} ];
     sc_filename := "FB_Motor.TcPOU";
     raw_source := "FB_Motor";
     sc_comments := [] |}.

Definition sources : Domain.SummarySources :=
  {| Domain.fb_source_code := λ fb, "FUNCTION_BLOCK " +:+ fbs_name fb;
     Domain.method_source_code := λ method, "METHOD " +:+ ms_name method;
     Domain.action_source_code := λ action, "ACTION " +:+ as_name action |}.

(** A docutils that stores whatever it is given as [rawsource], and one
    that refuses an element. *)
Definition storing : Domain.Docutils := {| Domain.rawsource_refused := None |}.
Definition refusing : Domain.Docutils :=
  {| Domain.rawsource_refused := Some "rawsource must be a text" |}.

Definition declaration (name type : string) : string * Declaration :=
  (name, {| decl_name := name; decl_type := type; decl_value := None |}).

(** A pump with an input, an in/out variable and an output, a method
    with an input of its own, and an action. *)
Definition pump : FunctionBlockSummary :=
  {| fbs_name := "FB_Pump";
     fbs_declarations :=
       [ ("InputDeclarations", [declaration "bEnable" "BOOL"]);
         ("InputOutputDeclarations", [declaration "stAxis" "ST_Axis"]);
         ("OutputDeclarations", [declaration "bBusy" "BOOL"]) ];
     fbs_methods :=
       [ {| ms_name := "Start";
            ms_declarations :=
              [("InputDeclarations", [declaration "fSpeed" "LREAL"])] |} ];
     fbs_actions := [ {| as_name := "Reset" |} ] |}.

Definition pump_docs : BlarkSphinxCache :=
  {| cache := [("pumps.TcPOU", {| function_blocks := [("FB_Pump", pump)] |})] |}.

(** The pump registered in two documents, [pumps] first. *)
Definition two_documents : Domain.DomainData :=
  [ ("module", []); ("type", []);
    ("functionblock",
       [ ("FB_Pump", [ Domain.entry_for "pumps" [] "FB_Pump";
                       Domain.entry_for "overview" [] "FB_Pump" ]) ]);
    ("parameter", []); ("method", []); ("action", []) ].

(** A valve, declared without members in [Demo.docs_cache], registered
    in two documents, [valves] first. *)
Definition valve_documents : Domain.DomainData :=
  [ ("module", []); ("type", []);
    ("functionblock",
       [ ("FB_Valve", [ Domain.entry_for "valves" [] "FB_Valve";
                        Domain.entry_for "overview" [] "FB_Valve" ]) ]);
    ("parameter", []); ("method", []); ("action", []) ].

Definition environment : Domain.Environment :=
  {| Domain.ref_context := [("bk:scope", ["plant"])];
     Domain.env_docname := "pumps";
     Domain.domaindata := [("std", []); ("bk", Domain.initial_data)] |}.

End Site.

(** * Properties *)

Section Properties.
Context `{Collaborators}.

(** ** Running the monad *)

Lemma M_bind_run {A B} (m : M A) (k : A → M B) st :
  (m ≫= k) st =
  match m st with
  | (Ok a, st') => k a st'
  | (Raise ex, st') => (Raise ex, st')
  end.
Proof. reflexivity. Qed.

#[local] Instance extends_preorder P : PreOrder (extends P).
Proof.
  split.
  - intros st. repeat split. exists []. split; [by rewrite app_nil_r | constructor].
  - intros st1 st2 st3 (Hp & Hn & evs & Ht & Hall) (Hp' & Hn' & evs' & Ht' & Hall').
    split; [congruence |]. split; [congruence |].
    exists (evs ++ evs'). split.
    + by rewrite Ht', Ht, app_assoc.
    + by apply Forall_app.
Qed.

#[local] Instance trace_grows_preorder : PreOrder trace_grows.
Proof.
  split.
  - intros st. exists []. by rewrite app_nil_r.
  - intros st1 st2 st3 [evs Ht] [evs' Ht']. exists (evs ++ evs').
    by rewrite Ht', Ht, app_assoc.
Qed.

#[local] Instance settled_preorder : PreOrder settled.
Proof.
  split.
  - by intros st p.
  - intros st1 st2 st3 H12 H23 p Hp.
    destruct (H12 p Hp) as [Hp2 Hc2]. destruct (H23 p Hp2) as [Hp3 Hc3].
    split; [done | congruence].
Qed.

Lemma extends_log (P : Event → Prop) ev st : P ev → extends P st (log ev st).
Proof.
  intros Hev. repeat split. exists [ev]. split; [done |]. by constructor.
Qed.

Lemma trace_grows_log ev st : trace_grows st (log ev st).
Proof. by exists [ev]. Qed.

Lemma settled_log ev st : is_new_parser ev = false → settled st (log ev st).
Proof.
  intros Hev p Hp. split; [done |].
  unfold constructions, log. simpl.
  rewrite List.filter_app, length_app. simpl. rewrite Hev. simpl. lia.
Qed.

Section Rules.
Context (R : relation State) `{!PreOrder R}.

Lemma preserves_ret {A} (a : A) : preserves R (mret a).
Proof. intros st. reflexivity. Qed.

Lemma preserves_raise {A} ex : preserves R (raise (A := A) ex).
Proof. intros st. reflexivity. Qed.

Lemma preserves_lift {A} (r : Res A) : preserves R (lift r).
Proof. intros st. reflexivity. Qed.

Lemma preserves_bind {A B} (m : M A) (k : A → M B) :
  preserves R m → (∀ a, preserves R (k a)) → preserves R (m ≫= k).
Proof.
  intros Hm Hk st. rewrite M_bind_run. specialize (Hm st).
  destruct (m st) as [[a | ex] st']; simpl in *; [| done].
  etrans; [exact Hm | apply Hk].
Qed.

Lemma preserves_bind_ret {A B} (a : A) (k : A → M B) :
  preserves R (k a) → preserves R (mret a ≫= k).
Proof. intros Hk st. apply Hk. Qed.

Lemma preserves_try {A} (m : M A) handler :
  preserves R m → (∀ ex, preserves R (handler ex)) →
  preserves R (try_except m handler).
Proof.
  intros Hm Hh st. unfold try_except. specialize (Hm st).
  destruct (m st) as [[a | ex] st']; simpl in *; [done |].
  etrans; [exact Hm | apply Hh].
Qed.

Lemma preserves_when b m : preserves R m → preserves R (when b m).
Proof. intros Hm. destruct b; [done | apply preserves_ret]. Qed.

Lemma preserves_call {A} ev (r : Res A) :
  (∀ st, R st (log ev st)) → preserves R (call ev r).
Proof. intros Hev st. apply Hev. Qed.

Lemma preserves_apply_preprocessors preprocessors text :
  (∀ name t st, R st (log (EvPreprocess name t) st)) →
  preserves R (apply_preprocessors preprocessors text).
Proof.
  intros HP. revert text.
  induction preprocessors as [| p rest IH]; intros text; simpl.
  - apply preserves_ret.
  - apply preserves_bind; [apply preserves_call, HP | intros; apply IH].
Qed.

End Rules.

(** Walks through a monadic body rule by rule; [leaf] settles the
    logged calls and whatever else is specific to the relation. *)
Ltac walk leaf :=
  repeat (intros; first
    [ solve [leaf]
    | apply preserves_ret; tc_solve
    | apply preserves_raise; tc_solve
    | apply preserves_lift; tc_solve
    | apply preserves_when; [tc_solve |]
    | apply preserves_try; [tc_solve | |]
    | apply preserves_apply_preprocessors; [tc_solve |]
    | apply preserves_call
    | apply preserves_bind_ret
    | apply preserves_bind; [tc_solve | |]
    | match goal with
      | |- preserves _ (let '(_, _) := ?x in _) => destruct x
      | |- preserves _ (match ?x with _ => _ end) => destruct x
      | |- preserves _ (if ?x then _ else _) => destruct x
      end ]).

(** ** The shared engine *)

Lemma get_parser_run st :
  get_parser st =
  match _PARSER st with
  | Some p => (Ok p, st)
  | None =>
      let p := mkLark (next_id st) [] in
      (Ok p, mkState (Some p) (S (next_id st)) (trace st ++ [EvNewParser p]))
  end.
Proof. unfold get_parser. rewrite M_bind_run. simpl. by destruct (_PARSER st). Qed.

Lemma settled_get_parser : preserves settled get_parser.
Proof. intros st p Hp. by rewrite get_parser_run, Hp. Qed.

Lemma call_get_parser_cached n st p :
  _PARSER st = Some p → call_get_parser n st = (Ok (replicate n p), st).
Proof.
  intros Hp. induction n as [| n IH]; [done |].
  simpl. rewrite M_bind_run, get_parser_run, Hp, M_bind_run, IH. done.
Qed.

Lemma constructions_app st evs t :
  trace st = t ++ evs →
  constructions st = (length (List.filter is_new_parser t)
                      + length (List.filter is_new_parser evs))%nat.
Proof. intros Ht. unfold constructions. by rewrite Ht, List.filter_app, length_app. Qed.

(** C3: the shared engine is built lazily and once.  For any number of
    calls of [get_parser] in a row, from any state: every call returns
    the same instance [p]; the state after all the calls is the state the
    first call left, with [p] stored in [_PARSER]; the constructor
    [new_parser] has run once, during the first call, when [_PARSER] was
    unset, and not at all when an engine was already stored, which is then
    the one returned. *)
Theorem get_parser_builds_once (n : nat) (st : State) :
  ∃ p : Lark,
    (get_parser st).1 = Ok p ∧
    call_get_parser (S n) st = (Ok (replicate (S n) p), (get_parser st).2) ∧
    _PARSER (get_parser st).2 = Some p ∧
    constructions (get_parser st).2 =
      (constructions st + match _PARSER st with Some _ => 0 | None => 1 end)%nat ∧
    (∀ q, _PARSER st = Some q → p = q ∧ (get_parser st).2 = st).
Proof.
  destruct (_PARSER st) as [q |] eqn:Hq.
  - exists q. rewrite (call_get_parser_cached _ _ _ Hq).
    rewrite get_parser_run, Hq. simpl.
    repeat split; [done | lia | congruence].
  - exists (mkLark (next_id st) []).
    change (call_get_parser (S n) st)
      with ((p ← get_parser; ps ← call_get_parser n; mret (p :: ps)) st).
    rewrite M_bind_run, get_parser_run, Hq. simpl.
    rewrite M_bind_run, (call_get_parser_cached n _ (mkLark (next_id st) [])) by done.
    repeat split; try done.
    unfold constructions. simpl.
    rewrite List.filter_app, length_app. done.
Qed.

(** Once an engine is stored, [parse_source_code] neither replaces it
    nor builds another one. *)
Lemma parse_source_code_settled source_code verbose fn preprocessors
    parser transform :
  preserves settled
    (parse_source_code source_code verbose fn preprocessors parser transform).
Proof.
  unfold parse_source_code.
  walk ltac:(first [ by apply settled_log | apply settled_get_parser ]).
Qed.

(** C9: a call of [parse_source_code] that is given a parser leaves the
    shared engine alone.  [_PARSER] is what it was, no engine has been
    built, and every event the call logs is neither a construction nor a
    parse by an engine other than the one supplied. *)
Theorem explicit_parser_leaves_shared_engine source_code verbose fn
    preprocessors (p : Lark) transform st :
  let st' := (parse_source_code source_code verbose fn preprocessors
                (Some p) transform st).2 in
  _PARSER st' = _PARSER st ∧
  constructions st' = constructions st ∧
  ∃ evs, trace st' = trace st ++ evs ∧ Forall (uses_only p) evs.
Proof.
  assert (Hwalk : preserves (extends (uses_only p))
            (parse_source_code source_code verbose fn preprocessors
               (Some p) transform)).
  { unfold parse_source_code.
    walk ltac:(apply extends_log; done). }
  destruct (Hwalk st) as (Hp & Hn & evs & Ht & Hall).
  simpl. split; [done |]. split; [| by exists evs].
  rewrite (constructions_app _ _ _ Ht). unfold constructions.
  assert (List.filter is_new_parser evs = []) as ->; [| simpl; lia].
  clear Ht. induction Hall as [| ev evs Hev _ IH]; [done |].
  simpl. destruct ev; simpl in *; done.
Qed.

(** ** The stages of [parse_source_code] *)

Lemma succeeds_print line : succeeds (print line).
Proof. by intros st. Qed.

Lemma succeeds_bind (m : M unit) (k : unit → M unit) :
  succeeds m → (∀ a, succeeds (k a)) → succeeds (m ≫= k).
Proof.
  intros Hm Hk st. rewrite M_bind_run. specialize (Hm st).
  destruct (m st) as [[a | ex] st']; simpl in *; [apply Hk | done].
Qed.

Lemma succeeds_when b m : succeeds m → succeeds (when b m).
Proof. intros Hm. by destruct b. Qed.

Ltac prints_succeed :=
  repeat first [ apply succeeds_print | apply succeeds_when
               | apply succeeds_bind; [| intros] ].

Lemma apply_preprocessors_run preprocessors text st :
  apply_preprocessors preprocessors text st =
  (preprocess preprocessors text,
   mkState (_PARSER st) (next_id st)
           (trace st ++ preprocess_calls preprocessors text)).
Proof.
  revert text st. induction preprocessors as [| p rest IH]; intros text st.
  - destruct st. simpl. by rewrite app_nil_r.
  - simpl. rewrite M_bind_run. unfold call. simpl.
    destruct (pp_call p text) as [text' | ex]; simpl.
    + rewrite IH. simpl. by rewrite <- app_assoc.
    + done.
Qed.

Lemma get_parser_result st :
  (get_parser st).1 = Ok (engine_for None st).
Proof. rewrite get_parser_run. unfold engine_for. by destruct (_PARSER st). Qed.

Lemma parse_source_code_outcome source_code verbose fn preprocessors parser
    transform st :
  (parse_source_code source_code verbose fn preprocessors parser transform st).1
  = parse_outcome source_code fn preprocessors parser transform st.
Proof.
  unfold parse_source_code, parse_outcome.
  rewrite M_bind_run, apply_preprocessors_run.
  destruct (preprocess _ source_code) as [text | ex]; [| done].
  rewrite M_bind_run. unfold call at 1. simpl.
  destruct (find_and_clean_comments text) as [[comments clean] | ex]; [| done].
  rewrite M_bind_run.
  set (st1 := log _ _).
  assert (Hengine : engine_for parser st1 = engine_for parser st) by done.
  rewrite <- Hengine. clearbody st1. clear Hengine.
  assert (∃ st2, (match parser with
                  | Some parser0 => mret parser0
                  | None => get_parser
                  end) st1 = (Ok (engine_for parser st1), st2)) as [st2 ->].
  { destruct parser as [p |]; [by exists st1 |].
    pose proof (get_parser_result st1) as Hg.
    destruct (get_parser st1) as [r st2]. simpl in Hg. subst r. by exists st2. }
  generalize (engine_for parser st1). intros engine.
  rewrite M_bind_run. unfold try_except, call at 1. simpl.
  destruct (lark_parse engine clean) as [tree | ex].
  - rewrite M_bind_run.
    match goal with |- context [when ?b ?m ?s] =>
      assert (Hs : succeeds (when b m)) by prints_succeed;
      specialize (Hs s); destruct (when b m s) as [[[] | ?] st3]; [| done]
    end.
    destruct transform; [| done].
    rewrite M_bind_run. unfold call. simpl.
    by destruct (transformer_transform _ _ _ _).
  - rewrite M_bind_run.
    match goal with |- context [when ?b ?m ?s] =>
      assert (Hs : succeeds (when b m)) by prints_succeed;
      specialize (Hs s); destruct (when b m s) as [[[] | ?] st3]; [| done]
    end.
    done.
Qed.

(** C4, as amended: when a stage of [parse_source_code] fails
    (preprocessing, comment extraction, grammar parse or transform), the
    call raises the exception of that stage, as it is, to its caller;
    nothing is attached to it. *)
Theorem stage_failure_propagates_unchanged source_code verbose fn
    preprocessors parser transform st ex :
  stage_failure source_code fn preprocessors (engine_for parser st) transform ex →
  (parse_source_code source_code verbose fn (Some preprocessors) parser
     transform st).1 = Raise ex.
Proof.
  intros Hfail. rewrite parse_source_code_outcome. unfold parse_outcome. simpl.
  destruct Hfail as [ex Hpre | text ex Hpre Hex | text comments clean ex Hpre Hex Hparse
                    | text comments clean tree ex -> Hpre Hex Hparse Htr].
  - by rewrite Hpre.
  - by rewrite Hpre, Hex.
  - by rewrite Hpre, Hex, Hparse.
  - by rewrite Hpre, Hex, Hparse, Htr.
Qed.

Lemma parse_source_code_trace_grows source_code verbose fn preprocessors
    parser transform :
  preserves trace_grows
    (parse_source_code source_code verbose fn preprocessors parser transform).
Proof.
  unfold parse_source_code.
  walk ltac:(first [ apply trace_grows_log
                   | intros st; rewrite get_parser_run;
                     destruct (_PARSER st); [reflexivity | by eexists] ]).
Qed.

Lemma trace_up_to_extraction source_code verbose fn preprocessors parser
    transform st text :
  preprocess (default DEFAULT_PREPROCESSORS preprocessors) source_code = Ok text →
  ∃ rest,
    trace (parse_source_code source_code verbose fn preprocessors parser
             transform st).2
    = trace st
      ++ preprocess_calls (default DEFAULT_PREPROCESSORS preprocessors) source_code
      ++ EvFindAndCleanComments text :: rest.
Proof.
  intros Hpre. unfold parse_source_code.
  rewrite M_bind_run, apply_preprocessors_run, Hpre.
  rewrite M_bind_run. unfold call at 1. cbv beta iota.
  destruct (find_and_clean_comments text) as [[comments clean] | ex].
  - match goal with |- context [trace (?K ?s).2] =>
      assert (HK : preserves trace_grows K);
      [| destruct (HK s) as [evs Hevs]; rewrite Hevs ]
    end.
    { walk ltac:(first [ apply trace_grows_log
                       | intros st'; rewrite get_parser_run;
                         destruct (_PARSER st'); [reflexivity | by eexists] ]). }
    exists evs. simpl. by rewrite <- !app_assoc.
  - exists []. simpl. by rewrite <- !app_assoc.
Qed.

(** C6: the preprocessors handed to [parse_source_code] run before the
    comment extractor, in the order given, each on the text the one before
    it returned ([preprocess_calls]), and the extractor is then called on
    the text the last one returned; when the argument is left out, the
    first thing called is the extractor, on the source text as it is. *)
Theorem preprocessors_run_before_extraction source_code verbose fn
    (preprocessors : list Preprocessor) parser transform st text :
  preprocess preprocessors source_code = Ok text →
  (∃ rest,
     trace (parse_source_code source_code verbose fn (Some preprocessors)
              parser transform st).2
     = trace st ++ preprocess_calls preprocessors source_code
       ++ EvFindAndCleanComments text :: rest) ∧
  (∃ rest,
     trace (parse_source_code source_code verbose fn None parser transform st).2
     = trace st ++ EvFindAndCleanComments source_code :: rest).
Proof.
  intros Hpre. split.
  - by apply (trace_up_to_extraction _ _ _ (Some preprocessors)).
  - by apply (trace_up_to_extraction _ _ _ None).
Qed.

(** ** Running generators *)

Lemma Gen_bind_run {Y A B} (g : Gen Y A) (k : A → Gen Y B) st :
  (g ≫= k) st =
  match g st with
  | (ys, Ok a, st') => let '(ys', r, st'') := k a st' in (ys ++ ys', r, st'')
  | (ys, Raise ex, st') => (ys, Raise ex, st')
  end.
Proof. reflexivity. Qed.

Lemma gen_for_cons {Y A} (x : A) (l : list A) (body : A → Gen Y unit) st :
  gen_for (x :: l) body st = (_ ← body x; gen_for l body) st.
Proof. reflexivity. Qed.

Lemma gen_for_app {Y A} (l1 l2 : list A) (body : A → Gen Y unit) st :
  gen_for (l1 ++ l2) body st = (_ ← gen_for l1 body; gen_for l2 body) st.
Proof.
  revert st. induction l1 as [| x l1 IH]; intros st.
  - rewrite Gen_bind_run. simpl.
    by destruct (gen_for l2 body st) as [[ys r] st'].
  - simpl. rewrite !Gen_bind_run.
    destruct (body x st) as [[ys [[] | ex]] st1]; [| done].
    rewrite IH, Gen_bind_run.
    destruct (gen_for l1 body st1) as [[ys1 [[] | ex]] st2]; [| done].
    destruct (gen_for l2 body st2) as [[ys2 r] st3]. by rewrite app_assoc.
Qed.

Lemma gen_for_nested {Y A B} (ls : list A) (inner : A → list B)
    (body : B → Gen Y unit) st :
  gen_for ls (λ l, gen_for (inner l) body) st
  = gen_for (concat (inner <$> ls)) body st.
Proof.
  revert st. induction ls as [| l ls IH]; intros st; [done |].
  simpl. rewrite gen_for_app, !Gen_bind_run.
  destruct (gen_for (inner l) body st) as [[ys [[] | ex]] st1]; [| done].
  by rewrite IH.
Qed.

Lemma project_walk_flat {Y} project (body : string * SourceItem → Gen Y unit) st :
  gen_for (plcs project) (λ plc, gen_for (source_items plc) body) st
  = gen_for (project_items project) body st.
Proof. apply gen_for_nested. Qed.

Section GenRules.
Context {Y : Type} (R : relation State) `{!PreOrder R}.

Lemma gen_preserves_ret {A} (a : A) : gen_preserves (Y := Y) R (mret a).
Proof. intros st. reflexivity. Qed.

Lemma gen_preserves_yield (y : Y) : gen_preserves R (yield y).
Proof. intros st. reflexivity. Qed.

Lemma gen_preserves_run {A} (m : M A) :
  preserves R m → gen_preserves (Y := Y) R (run m).
Proof.
  intros Hm st. specialize (Hm st). unfold run, final.
  by destruct (m st) as [r st'].
Qed.

Lemma gen_preserves_bind {A B} (g : Gen Y A) (k : A → Gen Y B) :
  gen_preserves R g → (∀ a, gen_preserves R (k a)) → gen_preserves R (g ≫= k).
Proof.
  intros Hg Hk st. rewrite Gen_bind_run. specialize (Hg st).
  destruct (g st) as [[ys [a | ex]] st1]; [| done].
  specialize (Hk a st1). destruct (k a st1) as [[ys' r] st2].
  unfold final in *. simpl in *. by etrans.
Qed.

Lemma gen_preserves_try {A} (g : Gen Y A) handler :
  gen_preserves R g → (∀ ex, gen_preserves R (handler ex)) →
  gen_preserves R (gen_try g handler).
Proof.
  intros Hg Hh st. unfold gen_try. specialize (Hg st).
  destruct (g st) as [[ys [a | ex]] st1]; [done |].
  specialize (Hh ex st1). destruct (handler ex st1) as [[ys' r] st2].
  unfold final in *. simpl in *. by etrans.
Qed.

Lemma gen_preserves_for {A} (l : list A) (body : A → Gen Y unit) :
  (∀ x, gen_preserves R (body x)) → gen_preserves R (gen_for l body).
Proof.
  intros Hbody. induction l as [| x l IH]; [apply gen_preserves_ret |].
  intros st. rewrite gen_for_cons. revert st.
  apply gen_preserves_bind; [apply Hbody | by intros _].
Qed.

End GenRules.

(** ** One unit of a project *)

Lemma retrievable_text item :
  retrievable item = true ↔
  ∃ text, item_get_source_code item = Some (Ok (Some text)) ∧ text ≠ "".
Proof.
  unfold retrievable, truthy.
  destruct (item_get_source_code item) as [[[text |] | ex] |].
  - rewrite negb_true_iff, bool_decide_eq_false. split.
    + intros Hne. by exists text.
    + by intros (text' & [= ->] & Hne).
  - split; [done | by intros (? & ? & ?)].
  - split; [done | by intros (? & ? & ?)].
  - split; [done | by intros (? & ? & ?)].
Qed.

(** A unit has a retrievable text, or has no source text, or its
    accessor raises. *)
Lemma item_cases item :
  retrievable item = true ∨ without_source item = true ∨
  ∃ ex, accessor_error item = Some ex.
Proof.
  unfold retrievable, without_source, accessor_error.
  destruct (item_get_source_code item) as [[source_code | ex] |]; eauto.
  destruct (truthy source_code); auto.
Qed.

Lemma without_source_not_retrievable item :
  without_source item = true →
  retrievable item = false ∧ accessor_error item = None.
Proof.
  unfold retrievable, without_source, accessor_error.
  destruct (item_get_source_code item) as [[source_code | ex] |]; try done.
  by intros ->%negb_true_iff.
Qed.

Lemma accessor_error_not_retrievable item ex :
  accessor_error item = Some ex → retrievable item = false.
Proof.
  unfold retrievable, accessor_error.
  by destruct (item_get_source_code item) as [[source_code | ex'] |].
Qed.

Lemma retrievable_no_accessor_error item :
  retrievable item = true → accessor_error item = None.
Proof.
  unfold retrievable, accessor_error.
  by destruct (item_get_source_code item) as [[source_code | ex'] |].
Qed.

Lemma parse_project_item_skips verbose name item st :
  without_source item = true →
  parse_project_item verbose (name, item) st = ([], Ok tt, st).
Proof.
  unfold without_source, parse_project_item. intros Hno.
  destruct (item_get_source_code item) as [[source_code | ex] |]; [| done ..].
  rewrite Gen_bind_run. unfold run, lift. cbv beta iota zeta.
  by rewrite Hno.
Qed.

Lemma parse_project_item_raises verbose name item ex st :
  accessor_error item = Some ex →
  parse_project_item verbose (name, item) st = ([], Raise ex, st).
Proof.
  unfold accessor_error, parse_project_item. intros Hraise.
  destruct (item_get_source_code item) as [[source_code | ex'] |]; [done | | done].
  injection Hraise as ->. by rewrite Gen_bind_run.
Qed.

Lemma parse_project_item_run verbose name item text st :
  item_get_source_code item = Some (Ok (Some text)) → text ≠ "" →
  parse_project_item verbose (name, item) st =
  let out := parse_source_code text verbose (filename item) None None true st in
  ([(filename item, pair_value out.1)], Ok tt, out.2).
Proof.
  intros Hget Hne. unfold parse_project_item. rewrite Hget.
  rewrite Gen_bind_run. unfold run at 1, lift. cbv beta iota zeta. simpl.
  rewrite bool_decide_eq_false_2 by done. simpl.
  unfold gen_try. rewrite Gen_bind_run. unfold run.
  by destruct (parse_source_code text verbose (filename item) None None true st)
    as [[result | ex] st'].
Qed.

Lemma walk_cons_retrievable verbose name item text entries st :
  item_get_source_code item = Some (Ok (Some text)) → text ≠ "" →
  let out := parse_source_code text verbose (filename item) None None true st in
  let after := gen_for entries (parse_project_item verbose) out.2 in
  gen_for ((name, item) :: entries) (parse_project_item verbose) st
  = ((filename item, pair_value out.1) :: yields after, finish after, final after).
Proof.
  intros Hget Hne. cbv zeta. rewrite gen_for_cons, Gen_bind_run.
  rewrite (parse_project_item_run _ _ _ _ _ Hget Hne). cbv beta iota zeta.
  match goal with |- context [gen_for entries ?body ?s] =>
    by destruct (gen_for entries body s) as [[ys r] st2]
  end.
Qed.

Lemma walk_cons_skipped verbose name item entries st :
  without_source item = true →
  gen_for ((name, item) :: entries) (parse_project_item verbose) st
  = gen_for entries (parse_project_item verbose) st.
Proof.
  intros Hno. rewrite gen_for_cons, Gen_bind_run, parse_project_item_skips by done.
  by destruct (gen_for entries (parse_project_item verbose) st) as [[ys r] st2].
Qed.

Lemma walk_cons_raises verbose name item ex entries st :
  accessor_error item = Some ex →
  gen_for ((name, item) :: entries) (parse_project_item verbose) st
  = ([], Raise ex, st).
Proof.
  intros Hraise.
  by rewrite gen_for_cons, Gen_bind_run, (parse_project_item_raises _ _ _ ex).
Qed.

(** The walk ends with the exception of the first accessor that raises,
    and normally when none does. *)
Lemma walk_finish verbose entries st :
  finish (gen_for entries (parse_project_item verbose) st) = walk_end entries.
Proof.
  revert st. induction entries as [| [name item] entries IH]; intros st; [done |].
  destruct (item_cases item) as [Hr | [Hno | [ex Hraise]]].
  - pose proof (retrievable_no_accessor_error _ Hr) as Hnone.
    apply retrievable_text in Hr as (text & Hget & Hne).
    rewrite (walk_cons_retrievable _ _ _ _ _ _ Hget Hne). cbv zeta.
    simpl. rewrite Hnone. apply IH.
  - rewrite walk_cons_skipped by done.
    apply without_source_not_retrievable in Hno as [_ Hnone].
    simpl. rewrite Hnone. apply IH.
  - rewrite (walk_cons_raises _ _ _ ex) by done. simpl. by rewrite Hraise.
Qed.


Lemma parse_project_run path verbose transform st project :
  suffix_lower path = ".tsproj" → pytmc_parse path = Ok project →
  let out := gen_for (project_items project) (parse_project_item verbose) st in
  parse_project path verbose transform st
  = (yields out, walker_result (finish out), final out).
Proof.
  intros Hsuffix Hproject. simpl. unfold parse_project.
  rewrite bool_decide_eq_true_2 by done. simpl.
  rewrite Gen_bind_run. simpl. rewrite Gen_bind_run. unfold run, lift.
  rewrite Hproject. rewrite Gen_bind_run, project_walk_flat.
  destruct (gen_for (project_items project) (parse_project_item verbose) st)
    as [[ys [[] | ex]] st1]; [| done].
  simpl. unfold yields, final. simpl. by rewrite app_nil_r.
Qed.

(** ** The project walker *)

Lemma parse_source_code_value text verbose fn st result :
  (parse_source_code text verbose fn None None true st).1 = Ok result →
  ∃ code, result = ObjSourceCode code.
Proof.
  rewrite parse_source_code_outcome. unfold parse_outcome.
  destruct (preprocess _ text) as [text' | ?]; [| done].
  destruct (find_and_clean_comments text') as [[comments clean] | ?]; [| done].
  destruct (lark_parse _ clean) as [tree | ?]; [| done].
  destruct (transformer_transform _ _ _ _) as [code | ?]; [| done].
  intros [= <-]. by exists code.
Qed.

Lemma walk_pairs verbose entries st :
  Forall2 one_or_the_other (List.filter retrievable (walked entries).*2)
    (yields (gen_for entries (parse_project_item verbose) st)).
Proof.
  revert st. induction entries as [| [name item] entries IH]; intros st.
  - constructor.
  - destruct (item_cases item) as [Hr | [Hno | [ex Hraise]]].
    + pose proof (retrievable_no_accessor_error _ Hr) as Hnone.
      pose proof Hr as Hr'.
      apply retrievable_text in Hr as (text & Hget & Hne).
      rewrite (walk_cons_retrievable _ _ _ _ _ _ Hget Hne). simpl.
      rewrite Hnone. simpl. rewrite Hr'. constructor; [| apply IH].
      split; [done |].
      destruct (parse_source_code text verbose (filename item) None None true st).1
        as [result | ex] eqn:Hout; simpl.
      * apply parse_source_code_value in Hout as [code ->].
        split; [left; by exists code |]. by intros [_ [ex [=]]].
      * split; [right; by eexists |]. by intros [[code [=]] _].
    + rewrite walk_cons_skipped by done.
      apply without_source_not_retrievable in Hno as [Hr Hnone].
      simpl. rewrite Hnone. simpl. rewrite Hr. apply IH.
    + rewrite (walk_cons_raises _ _ _ ex) by done. simpl. rewrite Hraise.
      constructor.
Qed.

Lemma one_or_the_other_identifiers items (ys : list (Path * PyObj)) :
  Forall2 one_or_the_other items ys → ys.*1 = filename <$> items.
Proof.
  induction 1 as [| item y items ys (Hid & _) _ IH]; [done |].
  rewrite !fmap_cons. by rewrite Hid, IH.
Qed.

Lemma walk_identifiers verbose entries st :
  (yields (gen_for entries (parse_project_item verbose) st)).*1
  = filename <$> List.filter retrievable (walked entries).*2.
Proof. apply one_or_the_other_identifiers, walk_pairs. Qed.

Lemma walked_all entries : walk_end entries = Ok tt → walked entries = entries.
Proof.
  induction entries as [| [name item] entries IH]; [done |].
  simpl. destruct (accessor_error item); [done |]. intros Hend. by rewrite IH.
Qed.



(** C7: a unit whose source text is not retrievable (no accessor, or an
    accessor that returns nothing or an empty text) leaves no trace in the
    output: the walker yields, finishes and leaves the state exactly as
    its loop does over the other units of the project, in their order,
    and the identifiers in the stream are those of the units among them
    with a retrievable text that the loop gets to. *)
Theorem unit_without_source_is_omitted path verbose transform st project
    pre name item post :
  suffix_lower path = ".tsproj" →
  pytmc_parse path = Ok project →
  project_items project = pre ++ (name, item) :: post →
  without_source item = true →
  let others := gen_for (pre ++ post) (parse_project_item verbose) st in
  parse_project path verbose transform st
    = (yields others, walker_result (finish others), final others) ∧
  (yields others).*1
    = filename <$> List.filter retrievable (walked (pre ++ post)).*2.
Proof.
  intros Hsuffix Hproject Hitems Hno. cbv zeta.
  split; [| apply walk_identifiers].
  rewrite (parse_project_run _ _ _ _ _ Hsuffix Hproject). cbv zeta.
  rewrite Hitems, !gen_for_app, !Gen_bind_run.
  destruct (gen_for pre (parse_project_item verbose) st) as [[ys [[] | ex]] st1];
    [| done].
  by rewrite walk_cons_skipped.
Qed.

(** Once an engine is stored, no operation of the module replaces it or
    builds another one: the walker, the top-level generator and the
    single-file parse all leave it as it is. *)
Tactic Notation "rule" uconstr(lem) := apply lem; try tc_solve.

Lemma parse_project_item_settled verbose entry :
  gen_preserves settled (parse_project_item verbose entry).
Proof.
  destruct entry as [name item]. unfold parse_project_item.
  destruct (item_get_source_code item) as [accessor |];
    [| rule gen_preserves_ret].
  rule gen_preserves_bind; [rule gen_preserves_run; rule preserves_lift |].
  intros source_code.
  destruct (negb _); [rule gen_preserves_ret |].
  rule gen_preserves_try.
  - rule gen_preserves_bind.
    + rule gen_preserves_run. apply parse_source_code_settled.
    + intros result. rule gen_preserves_yield.
  - intros ex. rule gen_preserves_yield.
Qed.

Lemma parse_project_settled path verbose transform :
  gen_preserves settled (parse_project path verbose transform).
Proof.
  unfold parse_project.
  rule gen_preserves_bind.
  { destruct (negb _); [| rule gen_preserves_ret].
    rule gen_preserves_run. rule preserves_raise. }
  intros _. rule gen_preserves_bind.
  { rule gen_preserves_run. rule preserves_lift. }
  intros project. rule gen_preserves_bind.
  - rule gen_preserves_for. intros plc.
    rule gen_preserves_for.
    apply parse_project_item_settled.
  - intros _. rule gen_preserves_ret.
Qed.

Lemma parse_settled path : gen_preserves settled (parse path).
Proof.
  unfold parse. rule gen_preserves_bind.
  { destruct (bool_decide _); [rule gen_preserves_ret |].
    destruct (bool_decide _); [| rule gen_preserves_ret].
    rule gen_preserves_run. rule preserves_lift. }
  intros filenames. rule gen_preserves_for. intros fn.
  unfold parse_filename. rule gen_preserves_try.
  - destruct (bool_decide _).
    + rule gen_preserves_bind; [apply parse_project_settled |].
      intros _. rule gen_preserves_ret.
    + rule gen_preserves_bind.
      * rule gen_preserves_run. unfold parse_single_file.
        rule preserves_bind; [rule preserves_lift |].
        intros source_code. apply parse_source_code_settled.
      * intros result. rule gen_preserves_yield.
  - intros ex. rule gen_preserves_yield.
Qed.

(** ** Errors in the stream *)

Lemma gen_for_Forall {Y A} (P : Y → Prop) (l : list A) (body : A → Gen Y unit) :
  (∀ x st, x ∈ l → Forall P (yields (body x st))) →
  ∀ st, Forall P (yields (gen_for l body st)).
Proof.
  induction l as [| x l IH]; intros Hbody st; [constructor |].
  rewrite gen_for_cons, Gen_bind_run.
  pose proof (Hbody x st (list_elem_of_here x l)) as Hx.
  destruct (body x st) as [[ys [[] | ex]] st1]; [| done].
  assert (Hl : Forall P (yields (gen_for l body st1))).
  { apply IH. intros x' st' Hin. apply Hbody. by right. }
  destruct (gen_for l body st1) as [[ys' r] st2].
  unfold yields in *. simpl in *. by apply Forall_app.
Qed.

Lemma set_traceback_lookup ex tb :
  exc_attrs (set_traceback ex tb) !! "traceback" = Some tb.
Proof. unfold set_traceback. simpl. apply lookup_insert_eq. Qed.

Lemma parse_project_item_caught path verbose project entry st :
  pytmc_parse path = Ok project →
  entry ∈ project_items project →
  Forall (caught_by_parse_project path verbose)
    (yields (parse_project_item verbose entry st)).
Proof.
  intros Hproject Hin. destruct entry as [name item].
  destruct (item_cases item) as [Hr | [Hno | [ex Hraise]]].
  - apply retrievable_text in Hr as (text & Hget & Hne).
    rewrite (parse_project_item_run _ _ _ _ _ Hget Hne). cbv zeta.
    constructor; [| constructor]. intros e He. simpl in He.
    destruct (parse_source_code text verbose (filename item) None None true st).1
      as [result | ex] eqn:Hout; simpl in He.
    + apply parse_source_code_value in Hout as [code ->]. done.
    + injection He as <-.
      exists project, name, item, text, st, ex.
      repeat split; try done. apply set_traceback_lookup.
  - rewrite parse_project_item_skips by done. constructor.
  - rewrite (parse_project_item_raises _ _ _ ex) by done. constructor.
Qed.

Lemma parse_project_caught path verbose transform st :
  Forall (caught_by_parse_project path verbose)
    (yields (parse_project path verbose transform st)).
Proof.
  destruct (decide (suffix_lower path = ".tsproj")) as [Hsuffix | Hsuffix].
  - destruct (pytmc_parse path) as [project | ex] eqn:Hproject.
    + rewrite (parse_project_run _ _ _ _ _ Hsuffix Hproject). cbv zeta.
      apply gen_for_Forall. intros entry st' Hin.
      by eapply parse_project_item_caught.
    + unfold parse_project. rewrite bool_decide_eq_true_2 by done.
      rewrite Gen_bind_run. simpl. rewrite Gen_bind_run. unfold run, lift.
      rewrite Hproject. constructor.
  - unfold parse_project. rewrite bool_decide_eq_false_2 by done.
    rewrite Gen_bind_run. constructor.
Qed.

Lemma parse_single_file_value fn st result :
  (parse_single_file fn true st).1 = Ok result → ∃ code, result = ObjSourceCode code.
Proof.
  unfold parse_single_file. rewrite M_bind_run. unfold lift.
  destruct (get_source_code fn) as [source_code | ex]; [| done].
  apply parse_source_code_value.
Qed.

Lemma parse_filename_caught fn st :
  Forall caught_by_parse (yields (parse_filename fn st)).
Proof.
  unfold parse_filename, gen_try.
  destruct (bool_decide (suffix_lower fn = ".tsproj")).
  - rewrite Gen_bind_run.
    pose proof (parse_project_caught fn 0 true st) as Hunits.
    assert (Hunits' : Forall caught_by_parse (yields (parse_project fn 0 true st))).
    { eapply Forall_impl; [exact Hunits |].
      intros y Hy e He. left. exists fn. by apply Hy. }
    destruct (parse_project fn 0 true st) as [[ys [ret | ex]] st1] eqn:Hrun.
    + unfold yields in *. simpl in *. by rewrite app_nil_r.
    + unfold yields in *. simpl in *. apply Forall_app. split; [done |].
      constructor; [| constructor]. intros e [= <-]. right.
      exists ex, st. simpl. rewrite Hrun.
      repeat split; [by left | apply set_traceback_lookup].
  - rewrite Gen_bind_run. unfold run.
    destruct (parse_single_file fn true st) as [[result | ex] st1] eqn:Hrun.
    + simpl. constructor; [| constructor]. intros e He. simpl in He.
      destruct (parse_single_file_value fn st result) as [code ->]; [by rewrite Hrun |].
      done.
    + simpl. constructor; [| constructor]. intros e [= <-]. right.
      exists ex, st. simpl. rewrite Hrun.
      repeat split; [by right | apply set_traceback_lookup].
Qed.

(** C10: every exception object in the stream of [parse_project] or of
    [parse] is the exception that was caught, paired with the identifier
    of what failed, and carries the formatted traceback under the
    attribute [traceback].  In the stream of [parse_project] it is the
    exception raised by the parse of a unit of the project, paired with
    that unit's [filename]; in the stream of [parse] it is such a pair
    handed on from a project walker, or the exception raised while the
    file [fn] was processed, paired with [fn]. *)
Theorem yielded_errors_carry_traceback path verbose transform st :
  Forall (caught_by_parse_project path verbose)
    (yields (parse_project path verbose transform st)) ∧
  Forall caught_by_parse (yields (parse path st)).
Proof.
  split; [apply parse_project_caught |].
  assert (Hfiles : ∀ filenames st1,
    Forall caught_by_parse
      (yields (let '(ys', r, st'') := gen_for filenames parse_filename st1 in
               ([] ++ ys', r, st'')))).
  { intros filenames st1.
    pose proof (gen_for_Forall caught_by_parse filenames parse_filename
                  (λ fn st' _, parse_filename_caught fn st') st1) as Hall.
    by destruct (gen_for filenames parse_filename st1) as [[ys r] st2]. }
  unfold parse. rewrite Gen_bind_run.
  destruct (bool_decide (suffix_lower path = ".tsproj")); [apply Hfiles |].
  destruct (bool_decide (suffix_lower path = ".sln")); [| apply Hfiles].
  unfold run, lift.
  destruct (projects_from_solution path) as [filenames | ex]; [apply Hfiles |].
  constructor.
Qed.

(** ** The whole run of [parse_source_code] *)

Lemma state_eq (st st' : State) :
  _PARSER st = _PARSER st' → next_id st = next_id st' → trace st = trace st' →
  st = st'.
Proof. destruct st, st'. simpl. by intros -> -> ->. Qed.

Ltac run_prints :=
  unfold when, print, call, raise, log, mbind, M_bind, mret, M_ret; simpl.

Ltac same_state :=
  apply state_eq; simpl; rewrite <- ?app_assoc; simpl; rewrite ?app_nil_r;
  try reflexivity.

Lemma parse_source_code_run source_code verbose fn preprocessors parser
    transform st :
  parse_source_code source_code verbose fn preprocessors parser transform st
  = (parse_outcome source_code fn preprocessors parser transform st,
     state_after_parse source_code verbose fn preprocessors parser transform st).
Proof.
  unfold parse_source_code, parse_outcome, state_after_parse, parse_events,
    reaches_engine.
  rewrite M_bind_run, apply_preprocessors_run.
  destruct (preprocess _ source_code) as [text | ex].
  2: { f_equal. same_state. }
  rewrite M_bind_run. unfold call at 1. cbv beta iota.
  destruct (find_and_clean_comments text) as [[comments clean] | ex].
  2: { f_equal. same_state. }
  rewrite M_bind_run.
  set (st1 := log _ _).
  assert (Hengine : engine_for parser st1 = engine_for parser st) by done.
  assert (Hbuilds : builds_engine parser st1 = builds_engine parser st) by done.
  assert (∃ st2,
    (match parser with
     | Some parser0 => mret parser0
     | None => get_parser
     end) st1 = (Ok (engine_for parser st), st2) ∧
    _PARSER st2 = (if builds_engine parser st then Some (engine_for parser st)
                   else _PARSER st) ∧
    next_id st2 = (if builds_engine parser st then S (next_id st)
                   else next_id st) ∧
    trace st2 = trace st1 ++ (if builds_engine parser st
                              then [EvNewParser (engine_for parser st)] else []))
    as (st2 & -> & Hp2 & Hn2 & Ht2).
  { destruct parser as [p |].
    - exists st1. simpl. by rewrite app_nil_r.
    - rewrite get_parser_run. unfold builds_engine, engine_for. subst st1. simpl.
      destruct (_PARSER st) as [p |]; simpl; eexists; (split; [reflexivity |]);
        simpl; by rewrite ?app_nil_r. }
  clear Hengine Hbuilds. subst st1.
  generalize dependent (engine_for parser st). intros engine Hp2 Ht2.
  simpl is_ok. rewrite andb_true_l.
  rewrite M_bind_run. unfold try_except, call at 1. cbv beta iota.
  destruct (lark_parse engine clean) as [tree | ex].
  - rewrite M_bind_run. destruct (2 <? verbose); run_prints.
    + destruct transform; run_prints; (destruct (transformer_transform _ _ _ _) || idtac);
        f_equal; same_state; rewrite ?Hp2, ?Hn2, ?Ht2; simpl;
        rewrite <- ?app_assoc; simpl; try reflexivity.
    + destruct transform; run_prints; (destruct (transformer_transform _ _ _ _) || idtac);
        f_equal; same_state; rewrite ?Hp2, ?Hn2, ?Ht2; simpl;
        rewrite <- ?app_assoc; simpl; try reflexivity.
  - rewrite M_bind_run. destruct (1 <? verbose); run_prints;
      f_equal; same_state; rewrite ?Hp2, ?Hn2, ?Ht2; simpl;
      rewrite <- ?app_assoc; simpl; try reflexivity.
Qed.

(** X1: the calls of a successful parse, in order.  When every stage
    succeeds and nothing is printed on success ([verbose] at most 2),
    [parse_source_code] returns the transformed unit after: the
    preprocessors, the comment extractor on the preprocessed text, the
    construction of the shared engine if none was handed in and none was
    stored, the grammar engine on the cleaned text, and the transformer,
    which is given the source text as the caller passed it, not the
    preprocessed one. *)
Theorem successful_parse_calls source_code verbose fn preprocessors parser st
    text comments clean tree code :
  verbose ≤ 2 →
  preprocess (default DEFAULT_PREPROCESSORS preprocessors) source_code = Ok text →
  find_and_clean_comments text = Ok (comments, clean) →
  lark_parse (engine_for parser st) clean = Ok tree →
  transformer_transform comments fn source_code tree = Ok code →
  let out := parse_source_code source_code verbose fn preprocessors parser
               true st in
  out.1 = Ok (ObjSourceCode code) ∧
  trace out.2
  = trace st
    ++ preprocess_calls (default DEFAULT_PREPROCESSORS preprocessors) source_code
    ++ [EvFindAndCleanComments text]
    ++ (if builds_engine parser st then [EvNewParser (engine_for parser st)]
        else [])
    ++ [EvLarkParse (engine_for parser st) clean; EvTransform fn source_code].
Proof.
  intros Hv Hpre Hextract Hparse Htransform. cbv zeta.
  rewrite parse_source_code_run. simpl.
  unfold parse_outcome, parse_events.
  rewrite Hpre, Hextract, Hparse, Htransform.
  replace (2 <? verbose) with false by (symmetry; apply Z.ltb_ge; lia).
  split; [done |]. done.
Qed.

Lemma preprocess_calls_not_printed preprocessors text :
  List.filter is_print (preprocess_calls preprocessors text) = [].
Proof.
  revert text. induction preprocessors as [| p rest IH]; intros text; [done |].
  simpl. by destruct (pp_call p text).
Qed.

Lemma preprocess_calls_quiet preprocessors text :
  List.filter (λ ev, negb (is_print ev)) (preprocess_calls preprocessors text)
  = preprocess_calls preprocessors text.
Proof.
  revert text. induction preprocessors as [| p rest IH]; intros text; [done |].
  simpl. f_equal. by destruct (pp_call p text).
Qed.

Lemma parse_events_quiet source_code verbose verbose' fn preprocessors parser
    transform st :
  List.filter (λ ev, negb (is_print ev))
    (parse_events source_code verbose fn preprocessors parser transform st)
  = List.filter (λ ev, negb (is_print ev))
      (parse_events source_code verbose' fn preprocessors parser transform st).
Proof.
  unfold parse_events. rewrite !List.filter_app. f_equal.
  destruct (preprocess _ source_code) as [text | ex]; [| done].
  simpl. f_equal.
  destruct (find_and_clean_comments text) as [[comments clean] | ex]; [| done].
  rewrite !List.filter_app. f_equal. simpl. f_equal.
  destruct (lark_parse _ clean) as [tree | ex].
  - rewrite !List.filter_app. f_equal.
    by destruct (2 <? verbose), (2 <? verbose').
  - by destruct (1 <? verbose), (1 <? verbose').
Qed.

(** X2: verbosity changes what is printed and nothing else.  Two calls
    of [parse_source_code] that differ only in [verbose] return or raise
    the same, and leave the same shared engine and the same log of calls
    once the printed lines are taken out; with [verbose] at most 1 nothing
    is printed at all. *)
Theorem verbosity_only_prints source_code verbose verbose' fn preprocessors
    parser transform st :
  let out := parse_source_code source_code verbose fn preprocessors parser
               transform st in
  let out' := parse_source_code source_code verbose' fn preprocessors parser
                transform st in
  out.1 = out'.1 ∧
  quiet out.2 = quiet out'.2 ∧
  (verbose ≤ 1 → printed out.2 = printed st).
Proof.
  cbv zeta. rewrite !parse_source_code_run. simpl.
  split; [done |]. split.
  - unfold quiet, state_after_parse. simpl. f_equal.
    rewrite !List.filter_app. f_equal. apply parse_events_quiet.
  - intros Hv. unfold printed, state_after_parse. simpl.
    rewrite List.filter_app.
    assert (List.filter is_print
              (parse_events source_code verbose fn preprocessors parser
                 transform st) = []) as ->; [| by rewrite app_nil_r].
    unfold parse_events.
    replace (1 <? verbose) with false by (symmetry; apply Z.ltb_ge; lia).
    replace (2 <? verbose) with false by (symmetry; apply Z.ltb_ge; lia).
    rewrite List.filter_app, preprocess_calls_not_printed. simpl.
    destruct (preprocess _ source_code) as [text | ex]; [| done].
    simpl.
    destruct (find_and_clean_comments text) as [[comments clean] | ex]; [| done].
    rewrite List.filter_app.
    assert (List.filter is_print
              (if builds_engine parser st
               then [EvNewParser (engine_for parser st)] else []) = []) as ->.
    { by destruct (builds_engine parser st). }
    simpl. destruct (lark_parse _ clean) as [tree | ex]; [| done].
    simpl. by destruct transform.
Qed.

(** X3: a grammar failure is reported with the unit's identifier when
    [verbose] is above 1.  When the grammar engine raises [ex], the call
    raises [ex] and has printed exactly the six lines of
    [failure_report], the source text as the caller passed it among them,
    the last one naming the unit: [[Failure] fn]. *)
Theorem grammar_failure_is_reported source_code verbose fn preprocessors
    parser transform st text comments clean ex :
  1 < verbose →
  preprocess (default DEFAULT_PREPROCESSORS preprocessors) source_code = Ok text →
  find_and_clean_comments text = Ok (comments, clean) →
  lark_parse (engine_for parser st) clean = Raise ex →
  let out := parse_source_code source_code verbose fn preprocessors parser
               transform st in
  out.1 = Raise ex ∧
  printed out.2 = printed st ++ failure_report source_code fn ex ∧
  last (trace out.2) = Some (EvPrint ("[Failure] " +:+ fn)).
Proof.
  intros Hv Hpre Hextract Hparse. cbv zeta.
  rewrite parse_source_code_run. simpl.
  unfold parse_outcome, printed, state_after_parse, parse_events. simpl.
  rewrite Hpre, Hextract, Hparse.
  replace (1 <? verbose) with true by (symmetry; apply Z.ltb_lt; lia).
  split; [done |]. split.
  - rewrite !List.filter_app, preprocess_calls_not_printed. simpl.
    by destruct (builds_engine parser st).
  - unfold failure_report.
    rewrite !app_assoc, app_comm_cons.
    match goal with |- last (?l ++ ?r) = _ =>
      change r with ([EvFindAndCleanComments text] ++ r) || idtac
    end.
    rewrite !last_app. simpl.
    destruct (builds_engine parser st); simpl; rewrite ?last_app; done.
Qed.

Lemma preprocess_calls_before_engine preprocessors text :
  Forall before_engine (preprocess_calls preprocessors text).
Proof.
  revert text. induction preprocessors as [| p rest IH]; intros text;
    [constructor |].
  simpl. constructor; [done |]. destruct (pp_call p text); [apply IH | constructor].
Qed.

Lemma constructions_unchanged st st' evs :
  trace st' = trace st ++ evs → Forall before_engine evs →
  constructions st' = constructions st.
Proof.
  intros Ht Hevs. rewrite (constructions_app _ _ _ Ht). unfold constructions.
  assert (List.filter is_new_parser evs = []) as ->; [| simpl; lia].
  clear Ht. induction Hevs as [| ev evs Hev _ IH]; [done |].
  simpl. destruct ev; simpl in *; done.
Qed.

(** X4: a text that fails before the grammar stage costs no engine.
    When preprocessing or comment extraction raises, the call raises,
    [_PARSER] is what it was, no engine has been built, and the only
    calls made are those of preprocessors and of the comment extractor:
    the grammar engine and the transformer are never reached. *)
Theorem failure_before_parsing_builds_no_engine source_code verbose fn
    preprocessors parser transform st :
  reaches_engine source_code preprocessors = false →
  let out := parse_source_code source_code verbose fn preprocessors parser
               transform st in
  is_ok out.1 = false ∧
  _PARSER out.2 = _PARSER st ∧
  constructions out.2 = constructions st ∧
  ∃ evs, trace out.2 = trace st ++ evs ∧ Forall before_engine evs.
Proof.
  intros Hearly. cbv zeta. rewrite parse_source_code_run. simpl.
  assert (Hevs : Forall before_engine
            (parse_events source_code verbose fn preprocessors parser
               transform st)).
  { unfold parse_events. apply Forall_app. split;
      [apply preprocess_calls_before_engine |].
    unfold reaches_engine in Hearly.
    destruct (preprocess _ source_code) as [text | ex]; [| constructor].
    destruct (find_and_clean_comments text) as [[comments clean] | ex];
      [done | by repeat constructor]. }
  split; [| split; [| split]].
  - unfold parse_outcome. unfold reaches_engine in Hearly.
    destruct (preprocess _ source_code) as [text | ex]; [| done].
    by destruct (find_and_clean_comments text) as [[comments clean] | ex].
  - unfold state_after_parse. simpl. by rewrite Hearly.
  - by eapply constructions_unchanged.
  - by eexists.
Qed.

(** ** At most one engine *)

#[local] Instance once_preorder : PreOrder once.
Proof.
  split.
  - intros st. unfold once. destruct (_PARSER st); [done | by left].
  - intros st1 st2 st3. unfold once.
    destruct (_PARSER st1) as [p1 |].
    + intros [-> ->] H23. done.
    + intros [[-> ->] | [[p2 ->] ->]] H23; [done |].
      right. destruct H23 as [-> ->]. split; [by eexists | done].
Qed.

Lemma once_log ev st : is_new_parser ev = false → once st (log ev st).
Proof.
  intros Hev. assert (Hc : constructions (log ev st) = constructions st).
  { unfold constructions, log. simpl.
    rewrite List.filter_app, length_app. simpl. rewrite Hev. simpl. lia. }
  unfold once. change (_PARSER (log ev st)) with (_PARSER st).
  destruct (_PARSER st); [done | by left].
Qed.

Lemma once_get_parser : preserves once get_parser.
Proof.
  intros st. rewrite get_parser_run. unfold once.
  destruct (_PARSER st) as [p |] eqn:Hp; simpl; [by rewrite Hp |].
  right. split; [by eexists |].
  unfold constructions. simpl. rewrite List.filter_app, length_app. simpl. lia.
Qed.

Section ModuleInvariant.
Context (R : relation State) `{!PreOrder R}.
Hypothesis R_log : ∀ ev st, is_new_parser ev = false → R st (log ev st).
Hypothesis R_get_parser : preserves R get_parser.

Lemma parse_source_code_invariant source_code verbose fn preprocessors
    parser transform :
  preserves R
    (parse_source_code source_code verbose fn preprocessors parser transform).
Proof.
  unfold parse_source_code.
  walk ltac:(first [ by apply R_log | apply R_get_parser ]).
Qed.

Lemma parse_single_file_invariant fn transform :
  preserves R (parse_single_file fn transform).
Proof.
  unfold parse_single_file.
  rule preserves_bind; [rule preserves_lift |].
  intros source_code. apply parse_source_code_invariant.
Qed.

Lemma parse_project_invariant path verbose transform :
  gen_preserves R (parse_project path verbose transform).
Proof.
  unfold parse_project.
  rule gen_preserves_bind.
  { destruct (negb _); [| rule gen_preserves_ret].
    rule gen_preserves_run. rule preserves_raise. }
  intros _. rule gen_preserves_bind.
  { rule gen_preserves_run. rule preserves_lift. }
  intros project. rule gen_preserves_bind; [| intros _; rule gen_preserves_ret].
  rule gen_preserves_for. intros plc. rule gen_preserves_for.
  intros [name item]. unfold parse_project_item.
  destruct (item_get_source_code item) as [accessor |];
    [| rule gen_preserves_ret].
  rule gen_preserves_bind; [rule gen_preserves_run; rule preserves_lift |].
  intros source_code.
  destruct (negb _); [rule gen_preserves_ret |].
  rule gen_preserves_try.
  - rule gen_preserves_bind.
    + rule gen_preserves_run. apply parse_source_code_invariant.
    + intros result. rule gen_preserves_yield.
  - intros ex. rule gen_preserves_yield.
Qed.

Lemma parse_invariant path : gen_preserves R (parse path).
Proof.
  unfold parse. rule gen_preserves_bind.
  { destruct (bool_decide _); [rule gen_preserves_ret |].
    destruct (bool_decide _); [| rule gen_preserves_ret].
    rule gen_preserves_run. rule preserves_lift. }
  intros filenames. rule gen_preserves_for. intros fn.
  unfold parse_filename. rule gen_preserves_try.
  - destruct (bool_decide _).
    + rule gen_preserves_bind; [apply parse_project_invariant |].
      intros _. rule gen_preserves_ret.
    + rule gen_preserves_bind.
      * rule gen_preserves_run. apply parse_single_file_invariant.
      * intros result. rule gen_preserves_yield.
  - intros ex. rule gen_preserves_yield.
Qed.

End ModuleInvariant.

(** X5: a whole run of [parse] builds at most one engine.  However many
    files and units the run goes through, the constructor runs at most
    once, and only if no engine was stored when the run began; an engine
    that was stored is still the one stored at the end. *)
Theorem one_engine_per_run path st :
  let st' := final (parse path st) in
  (constructions st' ≤ S (constructions st))%nat ∧
  (∀ p, _PARSER st = Some p →
        _PARSER st' = Some p ∧ constructions st' = constructions st) ∧
  (_PARSER st' = None → constructions st' = constructions st).
Proof.
  cbv zeta.
  pose proof (parse_invariant once once_log once_get_parser path st) as Honce.
  unfold once in Honce.
  destruct (_PARSER st) as [p |].
  - destruct Honce as [Hp Hc]. split; [lia |]. split; [| by rewrite Hp].
    by intros ? [= <-].
  - destruct Honce as [[Hp Hc] | [[p Hp] Hc]].
    + split; [lia |]. by split.
    + split; [lia |]. split; [done | by rewrite Hp].
Qed.

(** ** What the generators raise *)

Lemma gen_eta {Y A} (out : list Y * Res A * State) :
  out = (yields out, finish out, final out).
Proof. by destruct out as [[ys r] st]. Qed.

Lemma parse_project_cases path verbose transform st :
  let out := parse_project path verbose transform st in
  if bool_decide (suffix_lower path = ".tsproj") then
    match pytmc_parse path with
    | Ok project =>
        finish out = walker_result (walk_end (project_items project)) ∧
        (yields out).*1
          = filename <$> List.filter retrievable
                           (walked (project_items project)).*2
    | Raise ex => out = ([], Raise ex, st)
    end
  else out = ([], Raise (mkExn "ValueError" "Expected a .tsproj file" ∅), st).
Proof.
  cbv zeta. case_bool_decide as Hsuffix.
  - destruct (pytmc_parse path) as [project | ex] eqn:Hproject.
    + rewrite (parse_project_run _ _ _ _ _ Hsuffix Hproject). cbv zeta.
      split; [| apply walk_identifiers].
      unfold finish at 1. simpl. by rewrite walk_finish.
    + unfold parse_project. rewrite bool_decide_eq_true_2 by done.
      rewrite Gen_bind_run. simpl. rewrite Gen_bind_run. unfold run, lift.
      by rewrite Hproject.
  - unfold parse_project. rewrite bool_decide_eq_false_2 by done.
    by rewrite Gen_bind_run.
Qed.


Lemma parse_filename_project fn st :
  suffix_lower fn = ".tsproj" →
  let out := parse_project fn 0 true st in
  parse_filename fn st
  = (yields out ++ match finish out with
                   | Ok _ => []
                   | Raise ex => [error_pair fn ex]
                   end,
     Ok tt, final out).
Proof.
  intros Hsuffix. cbv zeta. unfold parse_filename, gen_try.
  rewrite bool_decide_eq_true_2 by done. rewrite Gen_bind_run.
  by destruct (parse_project fn 0 true st) as [[ys [ret | ex]] st1].
Qed.

Lemma parse_filename_file fn st :
  suffix_lower fn ≠ ".tsproj" →
  let out := parse_single_file fn true st in
  parse_filename fn st = ([(fn, pair_value out.1)], Ok tt, out.2).
Proof.
  intros Hsuffix. cbv zeta. unfold parse_filename, gen_try.
  rewrite bool_decide_eq_false_2 by done. rewrite Gen_bind_run. unfold run.
  by destruct (parse_single_file fn true st) as [[result | ex] st1].
Qed.

Lemma parse_filename_finish fn st : finish (parse_filename fn st) = Ok tt.
Proof.
  destruct (decide (suffix_lower fn = ".tsproj")) as [Hsuffix | Hsuffix].
  - by rewrite parse_filename_project.
  - by rewrite parse_filename_file.
Qed.

Lemma files_finish filenames st :
  finish (gen_for filenames parse_filename st) = Ok tt.
Proof.
  revert st. induction filenames as [| fn filenames IH]; intros st; [done |].
  rewrite gen_for_cons, Gen_bind_run.
  pose proof (parse_filename_finish fn st) as Hf.
  destruct (parse_filename fn st) as [[ys r] st1].
  unfold finish in Hf. simpl in Hf. subst r.
  specialize (IH st1).
  by destruct (gen_for filenames parse_filename st1) as [[ys' r'] st2].
Qed.

Lemma files_cons fn filenames st :
  let first := parse_filename fn st in
  let rest := gen_for filenames parse_filename (final first) in
  gen_for (fn :: filenames) parse_filename st
  = (yields first ++ yields rest, Ok tt, final rest).
Proof.
  cbv zeta. rewrite gen_for_cons, Gen_bind_run.
  pose proof (parse_filename_finish fn st) as Hf.
  destruct (parse_filename fn st) as [[ys r] st1].
  unfold finish in Hf. simpl in Hf. subst r. unfold final, yields. simpl.
  pose proof (files_finish filenames st1) as Hf.
  destruct (gen_for filenames parse_filename st1) as [[ys' r] st2].
  unfold finish in Hf. simpl in Hf. by subst r.
Qed.

Lemma files_app before after st :
  let first := gen_for before parse_filename st in
  let rest := gen_for after parse_filename (final first) in
  gen_for (before ++ after) parse_filename st
  = (yields first ++ yields rest, Ok tt, final rest).
Proof.
  cbv zeta. rewrite gen_for_app, Gen_bind_run.
  pose proof (files_finish before st) as Hf.
  destruct (gen_for before parse_filename st) as [[ys r] st1].
  unfold finish in Hf. simpl in Hf. subst r. unfold final, yields. simpl.
  pose proof (files_finish after st1) as Hf.
  destruct (gen_for after parse_filename st1) as [[ys' r] st2].
  unfold finish in Hf. simpl in Hf. by subst r.
Qed.

Lemma parse_of_files path filenames st :
  ((if bool_decide (suffix_lower path = ".tsproj") then mret [path]
    else if bool_decide (suffix_lower path = ".sln")
         then run (lift (projects_from_solution path))
         else mret [path]) : Gen (Path * PyObj) (list Path)) st
  = ([], Ok filenames, st) →
  parse path st = gen_for filenames parse_filename st.
Proof.
  intros Hfiles. unfold parse. rewrite Gen_bind_run, Hfiles.
  by destruct (gen_for filenames parse_filename st) as [[ys r] st1].
Qed.

Lemma files_single fn st :
  gen_for [fn] parse_filename st = parse_filename fn st.
Proof.
  rewrite files_cons. cbv zeta.
  pose proof (parse_filename_finish fn st) as Hf.
  destruct (parse_filename fn st) as [[ys r] st1].
  unfold finish in Hf. simpl in Hf. subst r.
  unfold yields, final. simpl. by rewrite app_nil_r.
Qed.

Lemma parse_run_source_file path st :
  suffix_lower path ≠ ".tsproj" →
  suffix_lower path ≠ ".sln" →
  let out := parse_single_file path true st in
  parse path st = ([(path, pair_value out.1)], Ok tt, out.2).
Proof.
  intros Hproject Hsolution. cbv zeta.
  rewrite (parse_of_files path [path]).
  - rewrite files_single. by apply parse_filename_file.
  - by rewrite !bool_decide_eq_false_2.
Qed.

(** X7: [parse] on a single source file.  For a path that is neither a
    project nor a solution, [parse] never raises and yields exactly one
    pair, the path with the result of [parse_single_file] or, when that
    raised (the file cannot be read, or its text does not parse), with the
    exception and its traceback. *)
Theorem parse_of_a_source_file path st :
  suffix_lower path ≠ ".tsproj" →
  suffix_lower path ≠ ".sln" →
  let out := parse_single_file path true st in
  parse path st = ([(path, pair_value out.1)], Ok tt, out.2).
Proof. apply parse_run_source_file. Qed.

Lemma parse_run_project path st :
  suffix_lower path = ".tsproj" →
  let out := parse_project path 0 true st in
  parse path st
  = (yields out ++ match finish out with
                   | Ok _ => []
                   | Raise ex => [error_pair path ex]
                   end,
     Ok tt, final out).
Proof.
  intros Hsuffix. cbv zeta.
  rewrite (parse_of_files path [path]).
  - rewrite files_single. by apply parse_filename_project.
  - by rewrite bool_decide_eq_true_2.
Qed.

(** X8: [parse] on a project file.  The stream is the walker's stream;
    when the walker raises (the project cannot be read), [parse] does
    not: it adds one pair, the project path with the exception and its
    traceback. *)
Theorem parse_of_a_project path st :
  suffix_lower path = ".tsproj" →
  let out := parse_project path 0 true st in
  parse path st
  = (yields out ++ match finish out with
                   | Ok _ => []
                   | Raise ex => [error_pair path ex]
                   end,
     Ok tt, final out).
Proof. apply parse_run_project. Qed.

(** X9: a project of a solution that cannot be read does not stop the
    others.  When the reader raises [ex] for one project of the solution,
    the stream holds the pairs of the projects before it, then that
    project's path paired with [ex] and its traceback, then the pairs of
    the projects after it, walked from the state the earlier ones left;
    and [parse] finishes normally. *)
Theorem unreadable_project_does_not_stop_the_solution path st before fn after ex :
  suffix_lower path = ".sln" →
  projects_from_solution path = Ok (before ++ fn :: after) →
  suffix_lower fn = ".tsproj" →
  pytmc_parse fn = Raise ex →
  let first := gen_for before parse_filename st in
  let rest := gen_for after parse_filename (final first) in
  parse path st
  = (yields first ++ error_pair fn ex :: yields rest, Ok tt, final rest).
Proof.
  intros Hsuffix Hfiles Hfn Hread. cbv zeta.
  rewrite (parse_of_files path (before ++ fn :: after)).
  2: { rewrite bool_decide_eq_false_2 by (rewrite Hsuffix; done).
       rewrite bool_decide_eq_true_2 by done. unfold run, lift. by rewrite Hfiles. }
  rewrite files_app. cbv zeta. rewrite files_cons. cbv zeta.
  rewrite (parse_filename_project _ _ Hfn). cbv zeta.
  pose proof (parse_project_cases fn 0 true
                (final (gen_for before parse_filename st))) as Hraise.
  cbv zeta in Hraise. rewrite bool_decide_eq_true_2, Hread in Hraise by done.
  rewrite Hraise. done.
Qed.

(** X10: the only error [parse] lets out is the solution reader's.
    [parse] raises exactly when the path is a solution and reading it
    raises; it has then yielded nothing and left the state untouched.
    Every other failure ends up as a pair in the stream. *)
Theorem parse_raises_only_for_an_unreadable_solution path st ex :
  (finish (parse path st) = Raise ex ↔
   suffix_lower path = ".sln" ∧ projects_from_solution path = Raise ex) ∧
  (finish (parse path st) = Raise ex → parse path st = ([], Raise ex, st)).
Proof.
  destruct (decide (suffix_lower path = ".tsproj")) as [Hproject | Hproject].
  { rewrite (parse_run_project path st Hproject). cbv zeta. unfold finish. simpl.
    split; [| done]. split; [done |]. intros [Hsln _]. by rewrite Hproject in Hsln. }
  destruct (decide (suffix_lower path = ".sln")) as [Hsolution | Hsolution].
  - destruct (projects_from_solution path) as [filenames | ex'] eqn:Hfiles.
    + rewrite (parse_of_files path filenames).
      2: { rewrite bool_decide_eq_false_2, bool_decide_eq_true_2 by done.
           unfold run, lift. by rewrite Hfiles. }
      rewrite files_finish. split; [| done]. split; [done | by intros [_ ?]].
    + assert (Hrun : parse path st = ([], Raise ex', st)).
      { unfold parse. rewrite Gen_bind_run.
        rewrite bool_decide_eq_false_2, bool_decide_eq_true_2 by done.
        unfold run, lift. by rewrite Hfiles. }
      rewrite Hrun. unfold finish. simpl. split.
      * split; [by intros [= ->] | by intros [_ [= ->]]].
      * by intros [= ->].
  - rewrite (parse_run_source_file path st Hproject Hsolution). cbv zeta.
    unfold finish. simpl. split; [| done]. split; [done | by intros [? _]].
Qed.

End Properties.

(** ** Lookup in the documentation cache *)

Lemma dict_getitem_found {V} (d : dict V) k v :
  dict_get d k = Some v → dict_getitem d k = Ok v.
Proof. unfold dict_getitem. by intros ->. Qed.

Lemma dict_getitem_missing {V} (d : dict V) k :
  dict_get d k = None → dict_getitem d k = Raise (KeyError k).
Proof. unfold dict_getitem. by intros ->. Qed.

Lemma find_by_name_in_skips before rest name :
  Forall (λ unit, dict_get (function_blocks unit) name = None) before →
  find_by_name_in (before ++ rest) name = find_by_name_in rest name.
Proof.
  induction 1 as [| unit before Hmiss _ IH]; [done |].
  simpl. by rewrite (dict_getitem_missing _ _ Hmiss).
Qed.

(** C5: lookup by name goes through the summarized units in the order
    of the cache and returns the record of the first unit that declares
    the name, as that unit holds it, whatever the units after it declare
    under the same name; when no unit declares the name, it raises a
    [KeyError] that names it. *)
Theorem find_by_name_first_match (self : BlarkSphinxCache) (name : string) :
  (∀ before unit after fb,
     dict_values (cache self) = before ++ unit :: after →
     Forall (λ earlier, dict_get (function_blocks earlier) name = None) before →
     dict_get (function_blocks unit) name = Some fb →
     find_by_name self name = Ok fb) ∧
  (Forall (λ unit, dict_get (function_blocks unit) name = None)
          (dict_values (cache self)) →
   find_by_name self name = Raise (KeyError (repr name +:+ " not found"))).
Proof.
  unfold find_by_name. split.
  - intros before unit after fb -> Hbefore Hfound.
    rewrite find_by_name_in_skips by done. simpl.
    by rewrite (dict_getitem_found _ _ _ Hfound).
  - intros Hnone.
    rewrite <- (app_nil_r (dict_values (cache self))).
    by rewrite find_by_name_in_skips.
Qed.

(** * The properties at work in the concrete world *)

Section Runs.
#[local] Existing Instance Demo.collaborators.

(** The three units of [Demo.plant]: the stream holds three pairs, the
    second an error, the first and the third transformed units. *)
Example plant_three_pairs :
  ∃ axis error motor,
    yields (parse_project "plant.tsproj" 0 true Demo.fresh)
    = [ ("ST_Axis.TcPOU", ObjSourceCode axis);
        ("GVL_Main.TcPOU", ObjException error);
        ("FB_Motor.TcPOU", ObjSourceCode motor) ] ∧
    exc_type error = "UnexpectedCharacters".
Proof. by eexists _, _, _. Qed.

(** Three calls of [get_parser] in a fresh process: one engine, built
    once. *)
Example three_calls_one_engine :
  call_get_parser 3 Demo.fresh
  = (Ok [mkLark 0 []; mkLark 0 []; mkLark 0 []],
     mkState (Some (mkLark 0 [])) 1 [EvNewParser (mkLark 0 [])]).
Proof. reflexivity. Qed.

(** A parse with a parser of the caller's own, in a fresh process: the
    shared engine is still unset afterwards. *)
Example own_parser_leaves_global_unset :
  let out := parse_source_code "FUNCTION_BLOCK FB_Motor" 0 "FB_Motor.TcPOU"
               None (Some (mkLark 7 [("start", "start")])) true Demo.fresh in
  is_ok out.1 = true ∧ _PARSER out.2 = None ∧ constructions out.2 = 0%nat.
Proof. repeat split; reflexivity. Qed.





Lemma malformed_text_raises_parser_error :
  stage_failure "VAR_GLOBAL" "GVL_Main.TcPOU" [] (engine_for None Demo.fresh)
    true Demo.unexpected_input ∧
  (parse_source_code "VAR_GLOBAL" 0 "GVL_Main.TcPOU" (Some []) None true
     Demo.fresh).1 = Raise Demo.unexpected_input.
Proof.
  assert (Hfail : stage_failure "VAR_GLOBAL" "GVL_Main.TcPOU" []
                    (engine_for None Demo.fresh) true Demo.unexpected_input).
  { by eapply grammar_parse_fails. }
  split; [exact Hfail |].
  exact (stage_failure_propagates_unchanged "VAR_GLOBAL" 0 "GVL_Main.TcPOU" []
           None true Demo.fresh Demo.unexpected_input Hfail).
Defined.

(** The error raised for a malformed text is the one of the grammar
    engine, whatever identifier the call was given: it has no attribute
    and its message does not name the unit. *)
Lemma raised_error_does_not_name_the_unit :
  (parse_source_code "VAR_GLOBAL" 2 "GVL_Main.TcPOU" None None true Demo.fresh).1
    = Raise Demo.unexpected_input ∧
  (parse_source_code "VAR_GLOBAL" 2 "Elsewhere.TcPOU" None None true Demo.fresh).1
    = Raise Demo.unexpected_input ∧
  exc_attrs Demo.unexpected_input = ∅ ∧
  exc_msg Demo.unexpected_input = "No terminal matches".
Proof. repeat split; reflexivity. Qed.

Lemma two_preprocessors_then_extraction :
  preprocess [Demo.expand_macros; Demo.add_end] "FB_Motor"
    = Ok "FUNCTION_BLOCK FB_Motor END_FUNCTION_BLOCK" ∧
  (∃ rest,
     trace (parse_source_code "FB_Motor" 0 "FB_Motor.TcPOU"
              (Some [Demo.expand_macros; Demo.add_end]) None true Demo.fresh).2
     = trace Demo.fresh
       ++ [ EvPreprocess "expand_macros" "FB_Motor";
            EvPreprocess "add_end" "FUNCTION_BLOCK FB_Motor" ]
       ++ EvFindAndCleanComments "FUNCTION_BLOCK FB_Motor END_FUNCTION_BLOCK"
       :: rest) ∧
  (∃ rest,
     trace (parse_source_code "FB_Motor" 0 "FB_Motor.TcPOU" None None true
              Demo.fresh).2
     = trace Demo.fresh ++ EvFindAndCleanComments "FB_Motor" :: rest).
Proof.
  split; [reflexivity |].
  apply (preprocessors_run_before_extraction "FB_Motor" 0 "FB_Motor.TcPOU"
           [Demo.expand_macros; Demo.add_end] None true Demo.fresh).
  reflexivity.
Defined.

(** [FB_Empty], the second unit of [Demo.legacy], has an empty text: the
    walk is that of the loop over [FB_Broken] and [Folder], and the only
    pair is that of [FB_Broken]. *)
Lemma legacy_walk_omits_empty_unit :
  parse_project "legacy.tsproj" 0 true Demo.fresh
    = (yields (gen_for [Demo.broken; Demo.folder] (parse_project_item 0)
                 Demo.fresh),
       walker_result
         (finish (gen_for [Demo.broken; Demo.folder] (parse_project_item 0)
                    Demo.fresh)),
       final (gen_for [Demo.broken; Demo.folder] (parse_project_item 0)
                Demo.fresh)) ∧
  (yields (gen_for [Demo.broken; Demo.folder] (parse_project_item 0)
             Demo.fresh)).*1
    = ["FB_Broken.TcPOU"].
Proof.
  apply (unit_without_source_is_omitted "legacy.tsproj" 0 true Demo.fresh
           Demo.legacy [Demo.broken] "FB_Empty" Demo.empty.2 [Demo.folder]);
    reflexivity.
Defined.

Lemma motor_found_in_first_unit :
  find_by_name Demo.docs_cache "FB_Motor" = Ok Demo.motor_summary ∧
  find_by_name Demo.docs_cache "FB_Pump"
    = Raise (KeyError "'FB_Pump' not found").
Proof.
  split.
  - apply (proj1 (find_by_name_first_match Demo.docs_cache "FB_Motor")
             [ {| function_blocks := [("FB_Valve", Demo.valve_summary)] |} ]
             {| function_blocks := [("FB_Motor", Demo.motor_summary)] |}
             [ {| function_blocks := [("FB_Motor", Demo.other_motor_summary)] |} ]);
      [reflexivity | repeat constructor | reflexivity].
  - apply (proj2 (find_by_name_first_match Demo.docs_cache "FB_Pump")).
    repeat constructor.
Defined.

End Runs.

(** * The documentation domain *)

Section DomainData.
Import Domain.

(** ** Dictionaries *)

Lemma dict_get_set_eq {V} (d : dict V) k v : dict_get (dict_set d k v) k = Some v.
Proof.
  unfold dict_get. induction d as [| [k' v'] d IH]; simpl.
  - by rewrite bool_decide_eq_true_2.
  - case_bool_decide as Hk; simpl.
    + by rewrite bool_decide_eq_true_2.
    + by rewrite bool_decide_eq_false_2.
Qed.

Lemma dict_get_set_ne {V} (d : dict V) k k' v :
  k ≠ k' → dict_get (dict_set d k v) k' = dict_get d k'.
Proof.
  intros Hne. unfold dict_get. induction d as [| [k0 v0] d IH]; simpl.
  - by rewrite bool_decide_eq_false_2.
  - case_bool_decide as Hk; simpl.
    + subst k0. by rewrite !bool_decide_eq_false_2.
    + case_bool_decide; [done | apply IH].
Qed.

Lemma dict_getitem_ok {V} (d : dict V) k v :
  dict_getitem d k = Ok v ↔ dict_get d k = Some v.
Proof.
  unfold dict_getitem. destruct (dict_get d k); split; intros; by simplify_eq.
Qed.

(** ** Clearing a document *)

Lemma items_to_delete_snoc docname methods entry :
  items_to_delete docname (methods ++ [entry])
  = if bool_decide (entry_docname entry = docname)
    then length methods :: items_to_delete docname methods
    else items_to_delete docname methods.
Proof.
  unfold items_to_delete.
  rewrite length_app. simpl. rewrite Nat.add_1_r, seq_S. simpl.
  rewrite zip_with_app by by rewrite length_seq.
  by rewrite foldl_app.
Qed.

Lemma pop_app {A} i (l l' tail : list A) :
  pop i l = Ok l' → pop i (l ++ tail) = Ok (l' ++ tail).
Proof.
  unfold pop. destruct (decide (i < length l)%nat) as [Hi | Hi]; [| done].
  intros [= <-]. rewrite decide_True by (rewrite length_app; lia).
  f_equal. revert i Hi. induction l as [| x l IH]; intros i Hi; simpl in *; [lia |].
  destruct i as [| i]; [done |]. simpl. f_equal. apply IH. lia.
Qed.

Lemma pop_each_app items methods methods' tail :
  pop_each items methods = (Ok tt, methods') →
  pop_each items (methods ++ tail) = (Ok tt, methods' ++ tail).
Proof.
  revert methods. induction items as [| i items IH]; intros methods; simpl.
  - by intros [= ->].
  - destruct (pop i methods) as [popped | ex] eqn:Hpop; [| done].
    rewrite (pop_app _ _ _ tail Hpop). apply IH.
Qed.

Lemma pop_last {A} (l : list A) x : pop (length l) (l ++ [x]) = Ok l.
Proof.
  unfold pop. rewrite decide_True by (rewrite length_app; simpl; lia).
  f_equal. induction l as [| y l IH]; [done |]. simpl. by rewrite IH.
Qed.

Lemma pop_each_clears docname methods :
  pop_each (items_to_delete docname methods) methods
  = (Ok tt, kept docname methods).
Proof.
  unfold kept. induction methods as [| entry methods IH] using rev_ind; [done |].
  rewrite items_to_delete_snoc, filter_app.
  case_bool_decide as Hdoc.
  - simpl. rewrite pop_last, IH.
    rewrite filter_cons_False by (by intros ?). by rewrite filter_nil, app_nil_r.
  - rewrite (pop_each_app _ _ _ [entry] IH).
    by rewrite filter_cons_True, filter_nil.
Qed.

Lemma kept_nil docname : kept docname [] = [].
Proof. done. Qed.

Lemma clear_dictionary_run docname dictionary :
  clear_dictionary docname dictionary
  = (Ok tt, prod_map id (kept docname) <$> dictionary).
Proof.
  induction dictionary as [| [name methods] dictionary IH]; [done |].
  simpl. by rewrite pop_each_clears, IH.
Qed.

Lemma dict_get_cleared docname (dictionary : dict (list Entry)) name :
  dict_get (prod_map id (kept docname) <$> dictionary) name
  = kept docname <$> dict_get dictionary name.
Proof.
  unfold dict_get. induction dictionary as [| [name' methods] dictionary IH];
    [done |].
  simpl. by case_bool_decide.
Qed.

Lemma registrations_set_eq data objtype table name :
  registrations (dict_set data objtype table) objtype name
  = default [] (dict_get table name).
Proof. unfold registrations. by rewrite dict_get_set_eq. Qed.

Lemma registrations_set_ne data objtype objtype' table name :
  objtype ≠ objtype' →
  registrations (dict_set data objtype table) objtype' name
  = registrations data objtype' name.
Proof. intros Hne. unfold registrations. by rewrite dict_get_set_ne. Qed.

Lemma clear_tables_run docname dicnames data :
  NoDup dicnames →
  (∀ objtype, objtype ∈ dicnames → is_Some (dict_get data objtype)) →
  ∃ data',
    clear_tables docname dicnames data = (Ok tt, data') ∧
    (∀ objtype, is_Some (dict_get data' objtype) ↔ is_Some (dict_get data objtype)) ∧
    (∀ objtype name, objtype ∈ dicnames →
       registrations data' objtype name
       = kept docname (registrations data objtype name)) ∧
    (∀ objtype, objtype ∉ dicnames → dict_get data' objtype = dict_get data objtype).
Proof.
  intros Hnodup. revert data.
  induction Hnodup as [| dicname dicnames Hfresh _ IH]; intros data Hpresent.
  { exists data. repeat split; try done. intros objtype name Hin. by apply elem_of_nil in Hin. }
  destruct (Hpresent dicname) as [table Htable]; [by left |].
  simpl. rewrite (proj2 (dict_getitem_ok _ _ _) Htable), clear_dictionary_run.
  set (data1 := dict_set data dicname (prod_map id (kept docname) <$> table)).
  assert (Hsame : ∀ objtype,
            is_Some (dict_get data1 objtype) ↔ is_Some (dict_get data objtype)).
  { intros objtype. subst data1.
    destruct (decide (dicname = objtype)) as [<- | Hne].
    - rewrite dict_get_set_eq, Htable. split; by eexists.
    - by rewrite dict_get_set_ne. }
  destruct (IH data1) as (data' & Hrun & Hkeys & Hcleared & Hother).
  { intros objtype Hin. apply Hsame, Hpresent. by right. }
  exists data'. split; [done |]. split; [| split].
  - intros objtype. by rewrite Hkeys.
  - intros objtype name Hin.
    destruct (decide (objtype ∈ dicnames)) as [Hrest | Hrest].
    + rewrite (Hcleared _ _ Hrest). f_equal. subst data1.
      apply registrations_set_ne. by intros <-.
    + apply elem_of_cons in Hin as [-> | Hin]; [| done].
      unfold registrations at 1. rewrite (Hother _ Hfresh). subst data1.
      rewrite dict_get_set_eq, dict_get_cleared.
      unfold registrations. rewrite Htable.
      by destruct (dict_get table name).
  - intros objtype Hnot. apply not_elem_of_cons in Hnot as [Hne Hnot].
    rewrite (Hother _ Hnot). subst data1. by apply dict_get_set_ne.
Qed.

Lemma clear_doc_run docname data :
  (∀ objtype, objtype ∈ dict_keys initial_data → is_Some (dict_get data objtype)) →
  ∃ data',
    clear_doc docname data = (Ok tt, data') ∧
    (∀ objtype, is_Some (dict_get data' objtype) ↔ is_Some (dict_get data objtype)) ∧
    (∀ objtype name, objtype ∈ dict_keys initial_data →
       registrations data' objtype name
       = kept docname (registrations data objtype name)) ∧
    (∀ objtype, objtype ∉ dict_keys initial_data →
       dict_get data' objtype = dict_get data objtype).
Proof.
  intros Hpresent. apply clear_tables_run; [| done].
  apply (bool_decide_unpack _). by vm_compute.
Qed.

(** X11: [clear_doc] removes the registrations of one document and only
    those.  With the six tables of the domain in place it never raises
    (no [pop] is ever out of range), and afterwards every name of every
    table holds the registrations it held that were made in another
    document, in the order they had; tables other than the six are left
    alone. *)
Theorem clear_doc_removes_one_document docname (data : DomainData) :
  (∀ objtype, objtype ∈ dict_keys initial_data → is_Some (dict_get data objtype)) →
  let out := clear_doc docname data in
  out.1 = Ok tt ∧
  (∀ objtype name, objtype ∈ dict_keys initial_data →
     registrations out.2 objtype name
     = kept docname (registrations data objtype name)) ∧
  (∀ objtype, objtype ∉ dict_keys initial_data →
     dict_get out.2 objtype = dict_get data objtype).
Proof.
  intros Hpresent. cbv zeta.
  destruct (clear_doc_run docname data Hpresent) as (data' & -> & _ & Hcleared & Hother).
  by repeat split.
Qed.

(** ** Finding what is registered *)

Ltac in_list := repeat first [apply list_elem_of_here | apply list_elem_of_further].

Lemma find_obj_in_table data rolename objtype target :
  (rolename, objtype) ∈ role_tables →
  find_obj data rolename target
  = match dict_getitem data objtype with
    | Ok table => Ok (default [] (dict_get table target))
    | Raise ex => Raise ex
    end.
Proof.
  unfold role_tables. rewrite !elem_of_cons, elem_of_nil.
  intros [[= -> ->] | [[= -> ->] | [[= -> ->] | [[= -> ->] | [[= -> ->] | []]]]]];
    reflexivity.
Qed.

Lemma find_obj_other_role data rolename target :
  (∀ objtype, (rolename, objtype) ∉ role_tables) →
  find_obj data rolename target = Ok [].
Proof.
  intros Hrole.
  assert (Hno : ∀ role objtype, (role, objtype) ∈ role_tables → rolename ≠ role).
  { intros role objtype Hin ->. by apply (Hrole objtype). }
  assert (rolename ≠ "func") by (apply (Hno _ "functionblock"); in_list).
  assert (rolename ≠ "fb") by (apply (Hno _ "functionblock"); in_list).
  assert (rolename ≠ "type") by (apply (Hno _ "type"); in_list).
  assert (rolename ≠ "mod") by (apply (Hno _ "module"); in_list).
  assert (rolename ≠ "parameter") by (apply (Hno _ "parameter"); in_list).
  unfold find_obj, object_types. simpl.
  rewrite !bool_decide_eq_false_2; [done | ..];
    intros Hin; rewrite !elem_of_cons, elem_of_nil in Hin;
    repeat (destruct Hin as [Hin | Hin]; [congruence |]); done.
Qed.

Lemma find_obj_cases data rolename target entries :
  find_obj data rolename target = Ok entries →
  entries = [] ∨
  ∃ objtype, (rolename, objtype) ∈ role_tables ∧
             entries = registrations data objtype target.
Proof.
  destruct (decide (rolename ∈ role_tables.*1)) as [Hrole | Hnone].
  - apply list_elem_of_fmap in Hrole as ([role objtype] & -> & Hrole). simpl.
    rewrite (find_obj_in_table _ _ _ _ Hrole). unfold dict_getitem.
    destruct (dict_get data objtype) as [table |] eqn:Htable; [| done].
    intros [= <-]. right. exists objtype. split; [done |].
    unfold registrations. by rewrite Htable.
  - rewrite find_obj_other_role; [by intros [= <-]; left |].
    intros objtype Hin. apply Hnone.
    apply list_elem_of_fmap. by exists (rolename, objtype).
Qed.

(** X12: which roles find what.  Whatever [find_obj] returns is either
    nothing, or what is registered under the target in the table of
    function blocks (roles [func] and [fb]), types ([type]), modules
    ([mod]) or parameters ([parameter]).  So a role outside these five,
    [functionblock] among them, finds nothing, and no role finds what is
    registered as a method or an action. *)
Theorem find_obj_by_role (data : DomainData) rolename target entries :
  find_obj data rolename target = Ok entries →
  entries = [] ∨
  ∃ objtype, (rolename, objtype) ∈ role_tables ∧
             entries = registrations data objtype target.
Proof. apply find_obj_cases. Qed.

End DomainData.

Section DomainText.
Import Domain.

(** ** Texts *)

Lemma lstrip_suffix chars s : ∃ stripped, s = stripped +:+ lstrip chars s.
Proof.
  induction s as [| c s [stripped IH]]; [by exists "" |].
  simpl. destruct (char_in c chars); [| by exists ""].
  exists (String c stripped). change (String c s = String c (stripped +:+ lstrip chars s)).
  by f_equal.
Qed.

Lemma lstrip_head chars s c : starts_with c (lstrip chars s) = true → char_in c chars = false.
Proof.
  induction s as [| c' s IH]; [done |].
  simpl. destruct (char_in c' chars) eqn:Hin; [done |].
  simpl. by intros ->%bool_decide_eq_true.
Qed.

Lemma drop_chars_suffix n s : ∃ dropped, s = dropped +:+ drop_chars n s.
Proof.
  revert s. induction n as [| n IH]; intros s; [by exists "" |].
  destruct s as [| c s]; [by exists "" |].
  destruct (IH s) as [dropped Hs]. exists (String c dropped).
  change (String c s = String c (dropped +:+ drop_chars n s)). by f_equal.
Qed.

Lemma last_index_none c s : last_index c s = None → contains c s = false.
Proof.
  unfold contains. induction s as [| c' s IH]; [done |].
  simpl. destruct (last_index c s) as [i |]; [done |].
  case_bool_decide as Hc; [done |]. intros _.
  rewrite bool_decide_eq_false_2 by (by intros ->). by apply IH.
Qed.

Lemma last_index_some c s i :
  last_index c s = Some i → contains c (drop_chars (S i) s) = false.
Proof.
  revert i. induction s as [| c' s IH]; intros i; [done |].
  simpl. destruct (last_index c s) as [j |] eqn:Hj.
  - intros [= <-]. by apply IH.
  - case_bool_decide; [| done]. intros [= <-]. simpl. by apply last_index_none.
Qed.

Lemma drop_chars_upto c s i :
  last_index c s = Some i →
  ∃ before, s = (before +:+ String c "") +:+ drop_chars (S i) s.
Proof.
  revert i. induction s as [| c' s IH]; intros i; [done |].
  simpl. destruct (last_index c s) as [j |] eqn:Hj.
  - intros [= <-]. destruct (IH j eq_refl) as [before Hs].
    exists (String c' before).
    change (String c' s
            = String c' ((before +:+ String c "") +:+ drop_chars (S j) s)).
    by f_equal.
  - case_bool_decide as Hc; [| done]. intros [= <-]. subst c'. by exists "".
Qed.

Lemma starts_with_contains c s : starts_with c s = true → contains c s = true.
Proof.
  destruct s as [| c' s]; [done |]. simpl. intros ->%bool_decide_eq_true.
  by rewrite bool_decide_eq_true_2.
Qed.

Lemma take_one c s : take_chars 1 s = String c "" ↔ starts_with c s = true.
Proof.
  destruct s as [| c' s]; simpl; [done |]. rewrite bool_decide_eq_true.
  split; [by intros [= ->] | by intros ->].
Qed.

Lemma append_assoc (a b c : string) : (a +:+ b) +:+ c = a +:+ (b +:+ c).
Proof.
  induction a as [| x a IH]; [done |].
  change (String x ((a +:+ b) +:+ c) = String x (a +:+ (b +:+ c))). by f_equal.
Qed.

(** ** Names of nodes *)

Lemma split_no_separator c s : contains c s = false → split c s = [s].
Proof.
  unfold contains. induction s as [| c' s IH]; [done |].
  simpl. intros [Hc Hs]%orb_false_elim. apply bool_decide_eq_false in Hc.
  rewrite bool_decide_eq_false_2 by (by intros ->). by rewrite IH.
Qed.

Lemma split_separator c s :
  contains c s = true → ∃ first second rest, split c s = first :: second :: rest.
Proof.
  unfold contains. induction s as [| c' s IH]; [done |].
  simpl. case_bool_decide as Hc.
  - intros _. rewrite bool_decide_eq_true_2 by done.
    destruct (split c s) as [| part parts] eqn:Hsplit.
    + by destruct s; simpl in Hsplit; repeat case_match.
    + by eexists _, _, _.
  - rewrite bool_decide_eq_false_2 by (by intros ->). simpl.
    intros (first & second & rest & ->)%IH. by eexists _, _, _.
Qed.

Lemma last_part_cons_separator c s :
  last_part (split c (String c s)) = last_part (split c s).
Proof.
  simpl. rewrite bool_decide_eq_true_2 by done.
  destruct (contains c s) eqn:Hs.
  - by destruct (split_separator _ _ Hs) as (first & second & rest & ->).
  - by rewrite (split_no_separator _ _ Hs).
Qed.

Lemma last_part_cons_other c c' s :
  c' ≠ c → contains c s = true →
  last_part (split c (String c' s)) = last_part (split c s).
Proof.
  intros Hc Hs. simpl. rewrite bool_decide_eq_false_2 by done.
  by destruct (split_separator _ _ Hs) as (first & second & rest & ->).
Qed.

Lemma contains_append c a b : contains c (a +:+ String c b) = true.
Proof.
  unfold contains. induction a as [| x a IH]; simpl.
  - by rewrite bool_decide_eq_true_2.
  - change (bool_decide (c = x) || char_in c (a +:+ String c b) = true).
    by rewrite IH, orb_true_r.
Qed.

Lemma last_part_after_separator c a b :
  last_part (split c (a +:+ String c b)) = last_part (split c b).
Proof.
  induction a as [| x a IH]; [apply last_part_cons_separator |].
  change (last_part (split c (String x (a +:+ String c b)))
          = last_part (split c b)).
  destruct (decide (x = c)) as [-> | Hx].
  - by rewrite last_part_cons_separator.
  - rewrite last_part_cons_other by (done || apply contains_append). done.
Qed.

Lemma last_part_no_separator c s : contains c (last_part (split c s)) = false.
Proof.
  induction s as [| c' s IH]; [done |].
  destruct (decide (c' = c)) as [-> | Hc].
  - by rewrite last_part_cons_separator.
  - destruct (contains c s) eqn:Hs.
    + by rewrite last_part_cons_other.
    + rewrite split_no_separator; [| unfold contains in *; simpl;
        rewrite bool_decide_eq_false_2 by (by intros ->); done].
      unfold last_part. simpl. unfold contains in *. simpl.
      by rewrite bool_decide_eq_false_2 by (by intros ->).
Qed.

Lemma last_part_dotted a b :
  last_part (split "." (a +:+ "." +:+ b)) = last_part (split "." b).
Proof. apply (last_part_after_separator "." a b). Qed.

Lemma last_index_contains c s i : last_index c s = Some i → contains c s = true.
Proof.
  unfold contains. revert i. induction s as [| c' s IH]; intros i; [done |].
  simpl. destruct (last_index c s) as [j |].
  - intros _. by rewrite (IH j), orb_true_r.
  - case_bool_decide as Hc; [| done]. intros _.
    by rewrite bool_decide_eq_true_2.
Qed.

(** Cutting a text after its last separator, as [process_link] does with
    [rfind], gives the last part of its [split]. *)
Lemma after_last_separator c s :
  match last_index c s with
  | Some i => drop_chars (S i) s
  | None => s
  end = last_part (split c s).
Proof.
  induction s as [| c' s IH]; [done |].
  cbn [last_index]. destruct (last_index c s) as [j |] eqn:Hj.
  - change (drop_chars (S (S j)) (String c' s)) with (drop_chars (S j) s).
    rewrite IH.
    destruct (decide (c' = c)) as [-> | Hc].
    + by rewrite last_part_cons_separator.
    + rewrite last_part_cons_other; [done .. |]. by eapply last_index_contains.
  - pose proof (last_index_none _ _ Hj) as Hnone.
    case_bool_decide as Hc.
    + subst c'. change (drop_chars 1 (String c s)) with s.
      by rewrite last_part_cons_separator, split_no_separator.
    + rewrite split_no_separator; [done |].
      unfold contains in *. simpl.
      by rewrite bool_decide_eq_false_2 by (by intros ->).
Qed.

(** X13: what [process_link] does to a title and a target.  With an
    explicit title both are returned as they are.  Otherwise leading
    dots are taken off the title and leading tildes off the target; the
    returned title is the end of the given one and never starts with a
    dot, the returned target is the end of the given one and never
    starts with a tilde; and when the title, its dots taken off, starts
    with a tilde, the returned title is the last dotted component of
    what follows that tilde: the part after its last dot, or all of it
    when it has no dot, so that it contains no dot at all.  In both cases
    the scope stored on the reference is that of the context, or
    empty. *)
Theorem process_link_shortens ref_context has_explicit_title title target :
  let '(scope, title', target') :=
    process_link ref_context has_explicit_title title target in
  scope = default [] (dict_get ref_context "bk:scope") ∧
  (∃ cut, title = cut +:+ title') ∧
  (∃ cut, target = cut +:+ target') ∧
  if has_explicit_title then title' = title ∧ target' = target
  else
    target' = lstrip "~" target ∧
    starts_with "~" target' = false ∧
    starts_with "." title' = false ∧
    if starts_with "~" (lstrip "." title)
    then
      title' = last_part (split "." (drop_chars 1 (lstrip "." title))) ∧
      contains "." title' = false ∧
      ∃ before,
        drop_chars 1 (lstrip "." title) = before +:+ title' ∧
        (before = "" ∨ ∃ components, before = components +:+ ".")
    else title' = lstrip "." title.
Proof.
  unfold process_link. destruct has_explicit_title; simpl.
  { repeat split; try done; by exists "". }
  assert (Htarget : starts_with "~" (lstrip "~" target) = false).
  { destruct (starts_with "~" (lstrip "~" target)) eqn:Hs; [| done].
    by apply lstrip_head in Hs. }
  assert (Hdots : starts_with "." (lstrip "." title) = false).
  { destruct (starts_with "." (lstrip "." title)) eqn:Hs; [| done].
    by apply lstrip_head in Hs. }
  destruct (lstrip_suffix "." title) as [dots Htitle].
  destruct (lstrip_suffix "~" target) as [tildes Htarget'].
  case_bool_decide as Htilde.
  - apply take_one in Htilde. rewrite Htilde.
    destruct (lstrip "." title) as [| c rest] eqn:Hstripped; [done |].
    simpl in Htilde. apply bool_decide_eq_true in Htilde as ->.
    change (drop_chars 1 (String "~" rest)) with rest.
    pose proof (after_last_separator "." rest) as Hlast.
    unfold rfind. destruct (last_index "." rest) as [i |] eqn:Hi.
    + rewrite bool_decide_eq_true_2 by lia.
      replace (Z.to_nat (Z.of_nat i + 1)) with (S i) by lia.
      pose proof (last_index_some _ _ _ Hi) as Hnone.
      destruct (drop_chars_upto "." rest i Hi) as (components & Hrest).
      repeat split; try done.
      * exists (dots +:+ String "~" (components +:+ ".")). rewrite append_assoc.
        rewrite Htitle at 1. f_equal.
        change (String "~" rest
                = String "~" ((components +:+ ".") +:+ drop_chars (S i) rest)).
        by f_equal.
      * by eexists.
      * destruct (starts_with "." (drop_chars (S i) rest)) eqn:Hs; [| done].
        apply starts_with_contains in Hs. congruence.
      * exists (components +:+ "."). split; [done | right; by eexists].
    + rewrite bool_decide_eq_false_2 by lia.
      pose proof (last_index_none _ _ Hi) as Hnone.
      repeat split; try done.
      * exists (dots +:+ "~"). by rewrite append_assoc.
      * by eexists.
      * destruct (starts_with "." rest) eqn:Hs; [| done].
        apply starts_with_contains in Hs. congruence.
      * exists "". split; [done | by left].
  - assert (starts_with "~" (lstrip "." title) = false) as ->.
    { destruct (starts_with "~" (lstrip "." title)) eqn:Hs; [| done].
      by apply take_one in Hs. }
    repeat split; try done; by eexists.
Qed.

Section NodeNames.
Context `{SummarySources} `{Docutils}.

Lemma Element_init_bound positional rawsource children :
  Element_init positional = Ok (rawsource, children) →
  rawsource = head positional ∧ children = tail positional.
Proof.
  unfold Element_init. destruct positional as [| first rest].
  - by intros [= <- <-].
  - destruct rawsource_refused; [done |]. by intros [= <- <-].
Qed.

Lemma from_method_built fb method node :
  from_method fb method = Ok node →
  let parameters := parameter_nodes fb (ms_declarations method) in
  node = MethodNode (head parameters) (tail parameters) (ms_name method)
           [fbs_name fb +:+ "." +:+ ms_name method]
           (ms_declarations method) (method_source_code method).
Proof.
  unfold from_method.
  destruct (Element_init _) as [[rawsource children] | ex] eqn:Hinit; [| done].
  apply Element_init_bound in Hinit as [-> ->]. by intros [= <-].
Qed.

Lemma from_fb_built fb node :
  from_fb fb = Ok node →
  ∃ methods,
    comprehension (from_method fb) (fbs_methods fb) = Ok methods ∧
    let positional :=
      (parameter_nodes fb (fbs_declarations fb)
       ++ (from_action fb <$> fbs_actions fb)) ++ methods in
    node = FunctionBlockNode (head positional) (tail positional) (fbs_name fb)
             [fbs_name fb] (fbs_declarations fb) (fb_source_code fb).
Proof.
  unfold from_fb.
  destruct (comprehension _ _) as [methods | ex]; [| done].
  destruct (Element_init _) as [[rawsource children] | ex] eqn:Hinit; [| done].
  apply Element_init_bound in Hinit as [-> ->]. intros [= <-]. by exists methods.
Qed.

(** X14: the name of a node.  [name] is the part of the node's id after
    its last dot: for a function block the last dotted component of the
    block's name, and for a parameter, an action or a method that of its
    own name, whatever the name of the function block it belongs to.  It
    never contains a dot, and it is the declared name itself whenever
    that has no dot.  For a function block and a method this is the name
    of the node the constructor returns, when it returns one. *)
Theorem names_of_nodes (fb : FunctionBlockSummary) (decl : Declaration)
    (action : ActionSummary) (method : MethodSummary) :
  let last_of text := last_part (split "." text) in
  (∀ node, from_fb fb = Ok node → name node = Ok (last_of (fbs_name fb))) ∧
  name (from_decl fb decl) = Ok (last_of (decl_name decl)) ∧
  name (from_action fb action) = Ok (last_of (as_name action)) ∧
  (∀ node, from_method fb method = Ok node →
           name node = Ok (last_of (ms_name method))) ∧
  (∀ text, contains "." (last_of text) = false) ∧
  (∀ text, contains "." text = false → last_of text = text).
Proof.
  cbv zeta. repeat split.
  - intros node (methods & _ & ->)%from_fb_built. done.
  - unfold name, from_decl. cbn [ids first_item]. by rewrite last_part_dotted.
  - unfold name, from_action. cbn [ids first_item]. by rewrite last_part_dotted.
  - intros node ->%from_method_built. unfold name. cbn [ids first_item].
    by rewrite last_part_dotted.
  - intros text. apply last_part_no_separator.
  - intros text Hnone. by rewrite split_no_separator.
Qed.

End NodeNames.

End DomainText.

Section DomainNodes.
Import Domain.
Context `{SummarySources} `{Docutils}.

(** ** Registering nodes *)

Lemma add_entry_run (data : DomainData) objtype table name item :
  dict_get data objtype = Some table →
  add_entry objtype name item data
  = (Ok tt, dict_set data objtype
              (dict_set table name (default [] (dict_get table name) ++ [item]))).
Proof.
  intros Htable. unfold add_entry.
  by rewrite (proj2 (dict_getitem_ok _ _ _) Htable).
Qed.

Lemma add_entry_registrations (data : DomainData) objtype name item :
  is_Some (dict_get data objtype) →
  ∃ data',
    add_entry objtype name item data = (Ok tt, data') ∧
    (∀ table, is_Some (dict_get data' table) ↔ is_Some (dict_get data table)) ∧
    (∀ objtype' name',
       registrations data' objtype' name'
       = registrations data objtype' name'
         ++ if bool_decide (objtype' = objtype ∧ name' = name) then [item] else []).
Proof.
  intros [table Htable]. eexists. split; [by apply add_entry_run |]. split.
  - intros other. destruct (decide (objtype = other)) as [<- | Hne].
    + rewrite dict_get_set_eq, Htable. split; by eexists.
    + by rewrite dict_get_set_ne.
  - intros objtype' name'. destruct (decide (objtype = objtype')) as [<- | Hne].
    + rewrite registrations_set_eq. unfold registrations. rewrite Htable.
      destruct (decide (name = name')) as [<- | Hname].
      * rewrite dict_get_set_eq, bool_decide_eq_true_2 by done. done.
      * rewrite dict_get_set_ne, bool_decide_eq_false_2, app_nil_r by naive_solver.
        done.
    + rewrite registrations_set_ne, bool_decide_eq_false_2, app_nil_r by naive_solver.
      done.
Qed.

#[local] Instance untouched_preorder objtype : PreOrder (untouched objtype).
Proof.
  split.
  - by intros data.
  - intros d1 d2 d3 [Hk12 Hr12] [Hk23 Hr23]. split.
    + intros table. by rewrite Hk23.
    + intros name. by rewrite Hr23.
Qed.

Lemma untouched_ready objtype data data' :
  untouched objtype data data' → tables_ready data → tables_ready data'.
Proof. intros [Hkeys _] Hready table Hin. by apply Hkeys, Hready. Qed.

Lemma register_self_elsewhere node docname scope data table id rest :
  ids node = id :: rest →
  is_Some (dict_get data (objtype node)) →
  objtype node ≠ table →
  ∃ data', register_self node docname scope data = (Ok tt, data') ∧
           untouched table data data'.
Proof.
  intros Hids Hpresent Hother. unfold register_self, qualified_name.
  rewrite Hids. simpl.
  destruct (add_entry_registrations data (objtype node) id
              {| entry_docname := docname; entry_scope := scope;
                 entry_qualified_name := id |} Hpresent)
    as (data' & -> & Hkeys & Hregs).
  exists data'. split; [done |]. split; [done |].
  intros name. rewrite Hregs, bool_decide_eq_false_2, app_nil_r by naive_solver.
  done.
Qed.

Lemma register_each_untouched table nodes docname scope data :
  (∀ node data0, node ∈ nodes → tables_ready data0 →
     ∃ data', register node docname scope data0 = (Ok tt, data') ∧
              untouched table data0 data') →
  tables_ready data →
  ∃ data', register_each nodes docname scope data = (Ok tt, data') ∧
           untouched table data data'.
Proof.
  revert data. induction nodes as [| node nodes IH]; intros data Hnodes Hready.
  { by exists data. }
  simpl. destruct (is_blark_node node).
  - destruct (Hnodes node data) as (data1 & -> & Huntouched); [by left | done |].
    destruct (IH data1) as (data' & -> & Hrest).
    + intros node' data0 Hin. apply Hnodes. by right.
    + by eapply untouched_ready.
    + exists data'. split; [done | by etrans].
  - apply IH; [| done]. intros node' data0 Hin. apply Hnodes. by right.
Qed.

Lemma register_with_children node docname scope data :
  register node docname scope data
  = match node with
    | MethodNode _ _ _ _ _ _ | FunctionBlockNode _ _ _ _ _ _ =>
        match register_self node docname scope data with
        | (Ok _, data') => register_each (children node) docname scope data'
        | (Raise ex, data') => (Raise ex, data')
        end
    | _ => register_self node docname scope data
    end.
Proof.
  assert (Heach : ∀ nodes data0,
    (fix register_children (nodes : list Node) (domaindata : DomainData)
         : Res unit * DomainData :=
       match nodes with
       | [] => (Ok tt, domaindata)
       | child :: rest =>
           if is_blark_node child then
             match register child docname scope domaindata with
             | (Ok _, domaindata') => register_children rest domaindata'
             | (Raise ex, domaindata') => (Raise ex, domaindata')
             end
           else register_children rest domaindata
       end) nodes data0 = register_each nodes docname scope data0).
  { induction nodes as [| child rest IH]; intros data0; [done |].
    simpl. destruct (is_blark_node child); [| apply IH].
    destruct (register child docname scope data0) as [[[] | ex] data1]; [apply IH | done]. }
  destruct node; simpl; try done.
  all: destruct (register_self _ docname scope data) as [[[] | ex] data1]; [apply Heach | done].
Qed.

Lemma elem_of_concat {A} (x : A) (ls : list (list A)) :
  x ∈ concat ls → ∃ l, x ∈ l ∧ l ∈ ls.
Proof.
  induction ls as [| l ls IH]; simpl; [by intros ?%elem_of_nil |].
  rewrite elem_of_app. intros [Hin | Hin].
  - exists l. split; [done | by left].
  - destruct (IH Hin) as (l' & Hx & Hl). exists l'. split; [done | by right].
Qed.

Lemma in_node_tables table : table ∈ node_tables ↔
  table = "functionblock" ∨ table = "parameter" ∨ table = "action" ∨ table = "method".
Proof. unfold node_tables. rewrite !elem_of_cons, elem_of_nil. naive_solver. Qed.

Lemma elem_of_tail {A} (x : A) (l : list A) : x ∈ tail l → x ∈ l.
Proof. destruct l as [| y l]; [done |]. simpl. by right. Qed.

Lemma elem_of_parameter_nodes node fb declarations :
  node ∈ parameter_nodes fb declarations → ∃ decl, node = from_decl fb decl.
Proof.
  unfold parameter_nodes. intros Hin.
  apply elem_of_concat in Hin as (nodes & Hin & Hnodes).
  apply list_elem_of_fmap in Hnodes as (decls & -> & _).
  apply list_elem_of_fmap in Hin as (decl & -> & _). by exists decl.
Qed.

Lemma register_parameters nodes docname scope data :
  (∀ node, node ∈ nodes → ∃ owner decl, node = from_decl owner decl) →
  tables_ready data →
  ∃ data', register_each nodes docname scope data = (Ok tt, data') ∧
           untouched "functionblock" data data'.
Proof.
  intros Hnodes. apply register_each_untouched. intros node data0 Hin Hready.
  destruct (Hnodes node Hin) as (owner & decl & ->).
  rewrite register_with_children. simpl.
  eapply register_self_elsewhere; [done | | done].
  apply Hready, in_node_tables. simpl. auto.
Qed.

Lemma comprehension_built {A B} (f : A → Res B) l ys :
  comprehension f l = Ok ys → Forall2 (λ x y, f x = Ok y) l ys.
Proof.
  revert ys. induction l as [| x l IH]; intros ys; simpl.
  - intros [= <-]. constructor.
  - destruct (f x) as [y | ex] eqn:Hx; [| done].
    destruct (comprehension f l) as [ys' | ex]; [| done].
    intros [= <-]. constructor; [done | by apply IH].
Qed.

Lemma register_method fb method node docname scope data :
  from_method fb method = Ok node →
  tables_ready data →
  ∃ data', register node docname scope data = (Ok tt, data') ∧
           untouched "functionblock" data data'.
Proof.
  intros ->%from_method_built Hready. cbv zeta.
  rewrite register_with_children. cbv beta iota.
  match goal with |- context [register_self ?node _ _ _] =>
    destruct (register_self_elsewhere node docname scope data "functionblock"
                (fbs_name fb +:+ "." +:+ ms_name method) [])
      as (data1 & -> & Hself); [done | | done |]
  end.
  { apply Hready, in_node_tables. simpl. auto. }
  cbn [children].
  destruct (register_parameters
              (tail (parameter_nodes fb (ms_declarations method)))
              docname scope data1)
    as (data2 & -> & Hrest).
  - intros node Hin%elem_of_tail%elem_of_parameter_nodes.
    destruct Hin as [decl ->]. by eexists _, _.
  - by eapply untouched_ready.
  - exists data2. split; [done | by etrans].
Qed.

Lemma register_function_block fb node docname scope data :
  from_fb fb = Ok node →
  tables_ready data →
  ∃ data',
    register node docname scope data = (Ok tt, data') ∧
    (∀ table, is_Some (dict_get data' table) ↔ is_Some (dict_get data table)) ∧
    (∀ name,
       registrations data' "functionblock" name
       = registrations data "functionblock" name
         ++ if bool_decide (name = fbs_name fb)
            then [ {| entry_docname := docname; entry_scope := scope;
                      entry_qualified_name := fbs_name fb |} ]
            else []).
Proof.
  intros (methods & Hmethods & ->)%from_fb_built Hready. cbv zeta.
  apply comprehension_built in Hmethods.
  rewrite register_with_children. cbv beta iota.
  unfold register_self, qualified_name. cbn [ids first_item objtype].
  destruct (add_entry_registrations data "functionblock" (fbs_name fb)
              {| entry_docname := docname; entry_scope := scope;
                 entry_qualified_name := fbs_name fb |})
    as (data1 & -> & Hkeys1 & Hregs1).
  { apply Hready, in_node_tables. auto. }
  assert (Hready1 : tables_ready data1).
  { intros table Hin. by apply Hkeys1, Hready. }
  cbn [children].
  match goal with |- context [register_each ?nodes _ _ _] =>
    destruct (register_each_untouched "functionblock" nodes docname scope data1)
      as (data' & -> & Hkeys & Hregs); [| done |]
  end.
  - intros node data0 Hin%elem_of_tail Hready0.
    rewrite !elem_of_app in Hin. destruct Hin as [[Hin | Hin] | Hin].
    + apply elem_of_parameter_nodes in Hin as [decl ->].
      rewrite register_with_children. simpl.
      eapply register_self_elsewhere; [done | | done].
      apply Hready0, in_node_tables. simpl. auto.
    + apply list_elem_of_fmap in Hin as (action & -> & _).
      rewrite register_with_children. simpl.
      eapply register_self_elsewhere; [done | | done].
      apply Hready0, in_node_tables. simpl. auto.
    + apply list_elem_of_lookup in Hin as [i Hi].
      destruct (Forall2_lookup_r _ _ _ _ _ Hmethods Hi) as (method & _ & Hbuilt).
      by eapply register_method.
  - exists data'. split; [done |]. split.
    + intros table. by rewrite Hkeys.
    + intros name. rewrite Hregs, Hregs1. f_equal.
      destruct (decide (name = fbs_name fb)) as [-> | Hne].
      * by rewrite !bool_decide_eq_true_2.
      * rewrite !bool_decide_eq_false_2; naive_solver.
Qed.

(** ** What the constructor makes of the members of a block *)

Lemma from_method_stored fb method :
  rawsource_refused = None → ∃ node, from_method fb method = Ok node.
Proof.
  intros Hstores. unfold from_method, Element_init. rewrite Hstores.
  destruct (parameter_nodes _ _); by eexists.
Qed.

Lemma from_method_raises fb method ex :
  from_method fb method = Raise ex →
  ∃ msg, rawsource_refused = Some msg ∧ ex = TypeError msg.
Proof.
  unfold from_method, Element_init.
  destruct (parameter_nodes _ _) as [| first rest]; [done |].
  destruct rawsource_refused as [msg |]; [| done].
  intros [= <-]. by exists msg.
Qed.

Lemma comprehension_stored fb methods :
  rawsource_refused = None →
  ∃ nodes, comprehension (from_method fb) methods = Ok nodes.
Proof.
  intros Hstores. induction methods as [| method methods [nodes IH]];
    [by exists [] |].
  simpl. destruct (from_method_stored fb method Hstores) as [node ->].
  rewrite IH. by eexists.
Qed.

Lemma comprehension_raises fb methods ex :
  comprehension (from_method fb) methods = Raise ex →
  ∃ msg, rawsource_refused = Some msg ∧ ex = TypeError msg.
Proof.
  induction methods as [| method methods IH]; [done |].
  simpl. destruct (from_method fb method) as [node | ex'] eqn:Hmethod.
  - destruct (comprehension _ methods) as [nodes | ex']; [done |].
    intros [= <-]. by apply IH.
  - intros [= <-]. by eapply from_method_raises.
Qed.

Lemma from_fb_cases fb :
  let members :=
    (length (parameter_nodes fb (fbs_declarations fb))
     + length (fbs_actions fb) + length (fbs_methods fb))%nat in
  match rawsource_refused, members with
  | Some msg, S _ => from_fb fb = Raise (TypeError msg)
  | _, _ =>
      ∃ node methods,
        from_fb fb = Ok node ∧
        Forall2 (λ method built, from_method fb method = Ok built)
                (fbs_methods fb) methods ∧
        let positional :=
          (parameter_nodes fb (fbs_declarations fb)
           ++ (from_action fb <$> fbs_actions fb)) ++ methods in
        rawsource node = head positional ∧
        children node = tail positional ∧
        length (children node) = pred members
  end.
Proof.
  cbv zeta. unfold from_fb.
  destruct (comprehension (from_method fb) (fbs_methods fb))
    as [methods | ex] eqn:Hmethods.
  - pose proof (comprehension_built _ _ _ Hmethods) as Hbuilt.
    pose proof (Forall2_length _ _ _ Hbuilt) as Hlength.
    remember ((parameter_nodes fb (fbs_declarations fb)
               ++ (from_action fb <$> fbs_actions fb)) ++ methods)
      as positional eqn:Hpositional.
    assert (Hmembers : length positional
              = (length (parameter_nodes fb (fbs_declarations fb))
                 + length (fbs_actions fb) + length (fbs_methods fb))%nat).
    { subst positional. by rewrite !length_app, length_fmap, Hlength. }
    rewrite <- Hmembers. unfold Element_init.
    destruct positional as [| first rest].
    + destruct rawsource_refused;
        (eexists _, methods; rewrite <- Hpositional; by repeat split).
    + destruct rawsource_refused as [msg |]; [done |].
      eexists _, methods. rewrite <- Hpositional. by repeat split.
  - destruct (comprehension_raises _ _ _ Hmethods) as (msg & Hrefused & ->).
    rewrite Hrefused.
    destruct (fbs_methods fb) as [| method methods]; [done |].
    simpl. by rewrite Nat.add_succ_r.
Qed.

(** ** The directive *)

Lemma find_obj_function_block (data : DomainData) target :
  is_Some (dict_get data "functionblock") →
  find_obj data "fb" target = Ok (registrations data "functionblock" target).
Proof.
  intros [table Htable]. unfold find_obj, registrations. simpl.
  unfold dict_getitem. by rewrite Htable.
Qed.

Lemma find_by_name_in_raises values name ex :
  find_by_name_in values name = Raise ex → exc_type ex = "KeyError".
Proof.
  induction values as [| unit values IH]; simpl; [by intros [= <-] |].
  unfold dict_getitem. destruct (dict_get (function_blocks unit) name); [done |].
  simpl. done.
Qed.

Lemma split_once_parts c text :
  contains c text = true →
  ∃ before after,
    split_once c text = [before; after] ∧
    text = before +:+ String c after ∧
    contains c before = false.
Proof.
  unfold contains. induction text as [| c' text IH]; [done |].
  simpl. destruct (decide (c' = c)) as [-> | Hc].
  - intros _. rewrite bool_decide_eq_true_2 by done. by exists "", text.
  - rewrite (bool_decide_eq_false_2 (c = c')) by (by intros ->).
    rewrite bool_decide_eq_false_2 by done. simpl.
    intros (before & after & -> & -> & Hbefore)%IH.
    exists (String c' before), after. repeat split.
    simpl. by rewrite bool_decide_eq_false_2 by (by intros ->).
Qed.

Lemma run_parts transform_all directive_name arguments env docs :
  let ran := run transform_all directive_name arguments env docs in
  (directive_domain ran, directive_objtype ran)
  = if contains ":" directive_name then
      match split_once ":" directive_name with
      | [domain; objtype] => (domain, objtype)
      | _ => ("", directive_name)
      end
    else ("", directive_name).
Proof.
  cbv zeta. unfold run.
  destruct (if contains ":" directive_name then _ else _) as [domain objtype].
  repeat case_match; done.
Qed.

(** X15: the two parts of a directive's name.  When the name has a
    colon, [run] stores what is before the first colon as the domain and
    what is after it as the object type, so that the name is the two
    joined by a colon and the domain has no colon; a name without colon
    is the object type, with an empty domain. *)
Theorem directive_name_parts transform_all directive_name arguments env docs :
  let ran := run transform_all directive_name arguments env docs in
  if contains ":" directive_name then
    directive_name = directive_domain ran +:+ ":" +:+ directive_objtype ran ∧
    contains ":" (directive_domain ran) = false
  else directive_domain ran = "" ∧ directive_objtype ran = directive_name.
Proof.
  cbv zeta.
  pose proof (run_parts transform_all directive_name arguments env docs) as Hparts.
  cbv zeta in Hparts.
  destruct (contains ":" directive_name) eqn:Hcolon.
  - destruct (split_once_parts _ _ Hcolon) as (before & after & Hsplit & Htext & Hno).
    rewrite Hsplit in Hparts. injection Hparts as -> ->. done.
  - by injection Hparts as -> ->.
Qed.

(** X16: a directive for a function block that no unit declares.
    [run] raises nothing: it returns no node, leaves the domain data as
    it was, and logs that the name could not be found. *)
Theorem unknown_block_gives_no_node transform_all directive_name obj_name
    more env docs bk :
  dict_get (domaindata env) "bk" = Some bk →
  Forall (λ unit, dict_get (function_blocks unit) obj_name = None)
         (dict_values (cache docs)) →
  let ran := run transform_all directive_name (obj_name :: more) env docs in
  returned ran = Ok [] ∧
  domaindata_after ran = domaindata env ∧
  logged ran = ["Could not find: " +:+ obj_name].
Proof.
  intros Hbk Hnone. cbv zeta. unfold run.
  destruct (if contains ":" directive_name then _ else _) as [domain objtype].
  simpl. rewrite (proj2 (dict_getitem_ok _ _ _) Hbk).
  unfold find_by_name.
  rewrite <- (app_nil_r (dict_values _)), find_by_name_in_skips by done.
  simpl. done.
Qed.

(** X17: a directive for a function block that is declared.  When the
    constructor returns a node for the block, [run] returns that one
    node and has registered the block: in the domain data it leaves,
    the role [fb] finds, under the block's name, what was registered
    before followed by a registration in the directive's document, under
    the scope of the reference context; the data of other domains is as
    it was. *)
Theorem known_block_is_registered transform_all directive_name obj_name more
    env docs bk fb node :
  dict_get (domaindata env) "bk" = Some bk →
  tables_ready bk →
  find_by_name docs obj_name = Ok fb →
  from_fb fb = Ok node →
  let ran := run transform_all directive_name (obj_name :: more) env docs in
  let scope := default [] (dict_get (ref_context env) "bk:scope") in
  returned ran = Ok [transform_all node] ∧
  logged ran = [] ∧
  (∃ bk',
     dict_get (domaindata_after ran) "bk" = Some bk' ∧
     find_obj bk' "fb" (fbs_name fb)
     = Ok (registrations bk "functionblock" (fbs_name fb)
           ++ [entry_for (env_docname env) scope (fbs_name fb)])) ∧
  (∀ domain, domain ≠ "bk" →
     dict_get (domaindata_after ran) domain = dict_get (domaindata env) domain).
Proof.
  intros Hbk Hready Hfound Hnode. cbv zeta. unfold run.
  destruct (if contains ":" directive_name then _ else _) as [domain objtype].
  cbn [first_item]. rewrite (proj2 (dict_getitem_ok _ _ _) Hbk), Hfound, Hnode.
  destruct (register_function_block fb node (env_docname env)
              (default [] (dict_get (ref_context env) "bk:scope")) bk Hnode Hready)
    as (bk' & -> & Hkeys & Hregs).
  simpl. split; [done |]. split; [done |]. split.
  - exists bk'. split; [apply dict_get_set_eq |].
    rewrite find_obj_function_block.
    + by rewrite Hregs, bool_decide_eq_true_2.
    + apply Hkeys, Hready, in_node_tables. auto.
  - intros other Hother. by apply dict_get_set_ne.
Qed.

(** X18: a block registered twice resolves to its first registration.
    When a function block is registered again, in whatever document, a
    reference to it with role [fb] still resolves to the document that
    registered it first, and one warning is logged, which names the
    target and the qualified names of all the registrations, the new one
    last; when it was not registered before, the reference resolves to
    the document of the registration, without warning. *)
Theorem first_registration_wins fb node docname scope (data : DomainData)
    fromdocname :
  tables_ready data →
  from_fb fb = Ok node →
  let data' := (register node docname scope data).2 in
  let target := fbs_name fb in
  let new := entry_for docname scope target in
  match registrations data "functionblock" target with
  | [] =>
      resolve_xref data' fromdocname "fb" target
      = Ok (Some (reference_to fromdocname target new), [])
  | first :: others =>
      resolve_xref data' fromdocname "fb" target
      = Ok (Some (reference_to fromdocname target first),
            [ "More than one target found for cross-reference "
              +:+ repr target +:+ ": "
              +:+ join_names (entry_qualified_name
                                <$> first :: others ++ [new]) ])
  end.
Proof.
  intros Hready Hnode. cbv zeta.
  destruct (register_function_block fb node docname scope data Hnode Hready)
    as (data' & -> & Hkeys & Hregs).
  simpl. unfold resolve_xref. rewrite find_obj_function_block.
  2: { apply Hkeys, Hready, in_node_tables. auto. }
  rewrite Hregs, bool_decide_eq_true_2 by done.
  destruct (registrations data "functionblock" (fbs_name fb)) as [| first others];
    [done |].
  simpl. by destruct others.
Qed.

(** X21: what the constructor makes of the members of a block.  The
    parameters, actions and methods of a block are handed to the
    constructor as positional arguments, of which the first is bound to
    [rawsource].  With a docutils that refuses an element there,
    [from_fb] raises its [TypeError] for every block that has a member.
    Otherwise [from_fb] returns a node whose children are the members
    but the first, in order, the first being kept as [rawsource]: a block
    with [n] members gets a node with [n - 1] children, and a block
    without members a node without children. *)
Theorem first_member_is_bound_to_rawsource fb :
  let members :=
    (length (parameter_nodes fb (fbs_declarations fb))
     + length (fbs_actions fb) + length (fbs_methods fb))%nat in
  match rawsource_refused, members with
  | Some msg, S _ => from_fb fb = Raise (TypeError msg)
  | _, _ =>
      ∃ node methods,
        from_fb fb = Ok node ∧
        Forall2 (λ method built, from_method fb method = Ok built)
                (fbs_methods fb) methods ∧
        let positional :=
          (parameter_nodes fb (fbs_declarations fb)
           ++ (from_action fb <$> fbs_actions fb)) ++ methods in
        rawsource node = head positional ∧
        children node = tail positional ∧
        length (children node) = pred members
  end.
Proof. apply from_fb_cases. Qed.

(** X22: a directive for a block with members, under a docutils that
    refuses an element as [rawsource].  [run] raises the [TypeError] of
    the constructor: nothing is returned, nothing is registered and
    nothing is logged. *)
Theorem block_with_members_is_refused transform_all directive_name obj_name
    more env docs bk fb msg :
  dict_get (domaindata env) "bk" = Some bk →
  find_by_name docs obj_name = Ok fb →
  rawsource_refused = Some msg →
  (0 < length (parameter_nodes fb (fbs_declarations fb))
       + length (fbs_actions fb) + length (fbs_methods fb))%nat →
  let ran := run transform_all directive_name (obj_name :: more) env docs in
  returned ran = Raise (TypeError msg) ∧
  domaindata_after ran = domaindata env ∧
  logged ran = [].
Proof.
  intros Hbk Hfound Hrefused Hmembers. cbv zeta. unfold run.
  destruct (if contains ":" directive_name then _ else _) as [domain objtype].
  cbn [first_item]. rewrite (proj2 (dict_getitem_ok _ _ _) Hbk), Hfound.
  pose proof (from_fb_cases fb) as Hcases. cbv zeta in Hcases.
  rewrite Hrefused in Hcases.
  destruct (length (parameter_nodes fb (fbs_declarations fb))
            + length (fbs_actions fb) + length (fbs_methods fb))%nat; [lia |].
  by rewrite Hcases.
Qed.

End DomainNodes.

Section Resolving.
Import Domain.

(** X19: a cleared document is never the target of a reference.  After
    [clear_doc] for a document, whatever the role and the target, a
    reference that resolves does not point to that document. *)
Theorem cleared_document_is_no_target docname (data : DomainData) fromdocname
    typ target reference warnings :
  (∀ objtype, objtype ∈ dict_keys initial_data → is_Some (dict_get data objtype)) →
  resolve_xref (clear_doc docname data).2 fromdocname typ target
    = Ok (Some reference, warnings) →
  ref_todocname reference ≠ docname.
Proof.
  intros Hpresent.
  destruct (clear_doc_run docname data Hpresent) as (data' & -> & _ & Hcleared & _).
  simpl. unfold resolve_xref.
  destruct (find_obj data' typ target) as [entries | ex] eqn:Hfind; [| done].
  destruct entries as [| first others]; [done |].
  intros [= <- _]. simpl.
  apply find_obj_cases in Hfind as [Hfind | (objtype & Hrole & Hfind)]; [done |].
  assert (Hin : objtype ∈ dict_keys initial_data).
  { unfold role_tables in Hrole. rewrite !elem_of_cons, elem_of_nil in Hrole.
    unfold dict_keys, initial_data. simpl. rewrite !elem_of_cons.
    repeat (destruct Hrole as [[= _ ->] | Hrole]; [by auto 10 |]). done. }
  rewrite (Hcleared _ _ Hin) in Hfind.
  assert (Hfirst : first ∈ kept docname (registrations data objtype target)).
  { rewrite <- Hfind. by left. }
  unfold kept in Hfirst. by apply list_elem_of_filter in Hfirst as [? _].
Qed.

End Resolving.

Section Rendering.
Import Domain.
Context `{SummarySources} `{Docutils}.

Lemma dict_set_fresh {V} (d : dict V) k v :
  k ∉ dict_keys d → dict_set d k v = d ++ [(k, v)].
Proof.
  unfold dict_keys. induction d as [| [k' v'] d IH]; [done |].
  rewrite fmap_cons, not_elem_of_cons. intros [Hne Hfresh]. simpl.
  rewrite bool_decide_eq_false_2 by done. by rewrite IH.
Qed.

Lemma dict_update_disjoint {V} (d other : dict V) :
  NoDup (dict_keys other) →
  (∀ k, k ∈ dict_keys other → k ∉ dict_keys d) →
  dict_update d other = d ++ other.
Proof.
  unfold dict_update, dict_keys. revert d.
  induction other as [| [k v] other IH]; intros d Hnodup Hfresh; simpl.
  { by rewrite app_nil_r. }
  rewrite fmap_cons in Hnodup. apply NoDup_cons in Hnodup as [Hk Hnodup].
  rewrite dict_set_fresh by (apply Hfresh; rewrite fmap_cons; by left).
  rewrite IH; [by rewrite <- app_assoc | done |].
  intros k' Hin. unfold dict_keys. rewrite fmap_app, elem_of_app.
  intros [Hd | Hnew].
  - apply (Hfresh k'); [rewrite fmap_cons; by right | done].
  - simpl in Hnew. apply list_elem_of_singleton in Hnew as ->. done.
Qed.

(** X20: the signature of a function block lists its inputs, then its
    in/out variables.  When the in/out declarations have distinct names
    and none of them is also the name of an input, the rendering context
    of the block's node holds, under [inputs], the input declarations in
    source order followed by the in/out declarations in source order,
    and under [outputs] the output declarations in source order. *)
Theorem render_context_of_a_block (fb : FunctionBlockSummary) (node : Node) :
  let declared block := default [] (dict_get (fbs_declarations fb) block) in
  from_fb fb = Ok node →
  NoDup (dict_keys (declared "InputOutputDeclarations")) →
  (∀ name, name ∈ dict_keys (declared "InputOutputDeclarations") →
           name ∉ dict_keys (declared "InputDeclarations")) →
  get_render_context node
  = Some (dict_values (declared "InputDeclarations")
          ++ dict_values (declared "InputOutputDeclarations"),
          dict_values (declared "OutputDeclarations")).
Proof.
  cbv zeta. intros (methods & _ & ->)%from_fb_built Hnodup Hfresh.
  unfold get_render_context.
  rewrite dict_update_disjoint by done.
  unfold dict_values. by rewrite fmap_app.
Qed.

End Rendering.

(** ** Summaries *)

Section Summaries.







End Summaries.

(** * Runs of the parser and of the domain in the concrete world *)

Section ParserRuns.
#[local] Existing Instance Demo.collaborators.

(** [FB_Motor] parsed with one preprocessor in a fresh process: one call
    of the preprocessor, the comment extractor on the expanded text, one
    engine built, the grammar on the expanded text, and the transformer
    on the text as passed. *)
Lemma motor_parse_calls :
  let out := parse_source_code "FB_Motor" 1 "FB_Motor.TcPOU"
               (Some [Demo.expand_macros]) None true Demo.fresh in
  is_ok out.1 = true ∧
  trace out.2
  = [ EvPreprocess "expand_macros" "FB_Motor";
      EvFindAndCleanComments "FUNCTION_BLOCK FB_Motor";
      EvNewParser (mkLark 0 []);
      EvLarkParse (mkLark 0 []) "FUNCTION_BLOCK FB_Motor";
      EvTransform "FB_Motor.TcPOU" "FB_Motor" ].
Proof.
  cbv zeta.
  destruct (successful_parse_calls (H := Demo.collaborators) "FB_Motor" 1 "FB_Motor.TcPOU"
              (Some [Demo.expand_macros]) None Demo.fresh
              "FUNCTION_BLOCK FB_Motor" [] "FUNCTION_BLOCK FB_Motor"
              "FUNCTION_BLOCK FB_Motor"
              {| items := [ {| fb_name := "FUNCTION_BLOCK FB_Motor";
                               fb_declarations := []; fb_methods := [];
                               fb_actions := [] |} ];
                 sc_filename := "FB_Motor.TcPOU";
                 raw_source := "FB_Motor";
                 sc_comments := [] |})
    as [Hresult Htrace]; [lia | reflexivity ..|].
  split; [by rewrite Hresult | exact Htrace].
Defined.

(** The malformed unit [GVL_Main] parsed with [verbose] 2: the error of
    the grammar, and six printed lines, the last naming the unit. *)
Lemma globals_failure_is_printed :
  let out := parse_source_code "VAR_GLOBAL" 2 "GVL_Main.TcPOU" None None true
               Demo.fresh in
  out.1 = Raise Demo.unexpected_input ∧
  printed out.2
  = printed Demo.fresh
    ++ failure_report "VAR_GLOBAL" "GVL_Main.TcPOU" Demo.unexpected_input ∧
  last (trace out.2) = Some (EvPrint "[Failure] GVL_Main.TcPOU").
Proof.
  apply (grammar_failure_is_reported "VAR_GLOBAL" 2 "GVL_Main.TcPOU" None None
           true Demo.fresh "VAR_GLOBAL" [] "VAR_GLOBAL" Demo.unexpected_input);
    [lia | reflexivity ..].
Defined.

(** A preprocessor that rejects the text: after it nothing but the
    calls of the preprocessors has happened. *)
Lemma rejected_text_builds_no_engine :
  let out := parse_source_code "FB_Motor" 3 "FB_Motor.TcPOU"
               (Some [Demo.expand_macros; Site.strict; Demo.add_end]) None true
               Demo.fresh in
  is_ok out.1 = false ∧
  _PARSER out.2 = _PARSER Demo.fresh ∧
  constructions out.2 = constructions Demo.fresh ∧
  ∃ evs, trace out.2 = trace Demo.fresh ++ evs ∧ Forall before_engine evs.
Proof.
  apply (failure_before_parsing_builds_no_engine "FB_Motor" 3 "FB_Motor.TcPOU"
           (Some [Demo.expand_macros; Site.strict; Demo.add_end]) None true
           Demo.fresh).
  reflexivity.
Defined.

(** [parse] on the file of [FB_Motor]: one pair. *)
Lemma motor_file_one_pair :
  parse "FB_Motor.TcPOU" Demo.fresh
  = ([("FB_Motor.TcPOU",
       pair_value (parse_single_file "FB_Motor.TcPOU" true Demo.fresh).1)],
     Ok tt, (parse_single_file "FB_Motor.TcPOU" true Demo.fresh).2) ∧
  (parse_single_file "FB_Motor.TcPOU" true Demo.fresh).1
  = Ok (ObjSourceCode
          {| items := [ {| fb_name := "FUNCTION_BLOCK FB_Motor";
                           fb_declarations := []; fb_methods := [];
                           fb_actions := [] |} ];
             sc_filename := "FB_Motor.TcPOU";
             raw_source := "FUNCTION_BLOCK FB_Motor";
             sc_comments := [] |}).
Proof.
  split; [| reflexivity].
  apply (parse_of_a_source_file "FB_Motor.TcPOU" Demo.fresh); discriminate.
Defined.

(** [parse] on a project that does not exist: one pair, with the
    reader's error. *)
Lemma missing_project_one_pair :
  parse "missing.tsproj" Demo.fresh
  = (yields (parse_project "missing.tsproj" 0 true Demo.fresh)
     ++ match finish (parse_project "missing.tsproj" 0 true Demo.fresh) with
        | Ok _ => []
        | Raise ex => [error_pair "missing.tsproj" ex]
        end,
     Ok tt, final (parse_project "missing.tsproj" 0 true Demo.fresh)) ∧
  yields (parse "missing.tsproj" Demo.fresh)
  = [error_pair "missing.tsproj" (Demo.no_such_file "missing.tsproj")].
Proof.
  split; [| reflexivity].
  apply (parse_of_a_project "missing.tsproj" Demo.fresh). reflexivity.
Defined.

End ParserRuns.

Section SolutionRuns.
#[local] Existing Instance Site.collaborators.

(** A solution of three projects, the second of which is missing: the
    pairs of [plant], the pair of the missing project, the pairs of
    [legacy]. *)
Lemma missing_project_between_two :
  parse "site.sln" Demo.fresh
  = (yields (gen_for ["plant.tsproj"] parse_filename Demo.fresh)
     ++ error_pair "missing.tsproj" (Demo.no_such_file "missing.tsproj")
     :: yields (gen_for ["legacy.tsproj"] parse_filename
                  (final (gen_for ["plant.tsproj"] parse_filename Demo.fresh))),
     Ok tt,
     final (gen_for ["legacy.tsproj"] parse_filename
              (final (gen_for ["plant.tsproj"] parse_filename Demo.fresh)))) ∧
  (yields (parse "site.sln" Demo.fresh)).*1
  = [ "ST_Axis.TcPOU"; "GVL_Main.TcPOU"; "FB_Motor.TcPOU"; "missing.tsproj";
      "FB_Broken.TcPOU" ].
Proof.
  split; [| reflexivity].
  apply (unreadable_project_does_not_stop_the_solution "site.sln" Demo.fresh
           ["plant.tsproj"] "missing.tsproj" ["legacy.tsproj"]
           (Demo.no_such_file "missing.tsproj"));
    reflexivity.
Defined.

(** The walk over [Site.guarded]: the malformed [GVL_Main] does not stop
    it, [ST_Axis] is parsed, and the accessor of [FB_Linked] ends it;
    [FB_Motor], which comes after, gets no pair. *)
Example guarded_walk_ends_at_the_accessor :
  ∃ error axis,
    parse_project "guarded.tsproj" 0 true Demo.fresh
    = ([ ("GVL_Main.TcPOU", ObjException error);
         ("ST_Axis.TcPOU", ObjSourceCode axis) ],
       Raise (Demo.no_such_file "FB_Linked.TcPOU"),
       final (gen_for [Demo.globals; Demo.axis] (parse_project_item 0)
                Demo.fresh)) ∧
    exc_type error = "UnexpectedCharacters".
Proof. by eexists _, _. Qed.

(** [parse] on the same project: the exception of the accessor becomes
    a pair with the path of the project. *)
Example guarded_project_in_parse :
  (yields (parse "guarded.tsproj" Demo.fresh)).*1
    = ["GVL_Main.TcPOU"; "ST_Axis.TcPOU"; "guarded.tsproj"] ∧
  finish (parse "guarded.tsproj" Demo.fresh) = Ok tt.
Proof. by split. Qed.

End SolutionRuns.

Section DomainRuns.
Import Domain.
#[local] Existing Instance Site.sources.

Lemma two_documents_ready objtype :
  objtype ∈ dict_keys initial_data → is_Some (dict_get Site.two_documents objtype).
Proof.
  unfold dict_keys, initial_data. simpl. rewrite !elem_of_cons, elem_of_nil.
  intros [-> | [-> | [-> | [-> | [-> | [-> | []]]]]]]; by eexists.
Qed.

Lemma initial_data_ready : tables_ready initial_data.
Proof.
  intros objtype Hin. apply in_node_tables in Hin.
  destruct Hin as [-> | [-> | [-> | ->]]]; by eexists.
Qed.

Lemma two_documents_tables_ready : tables_ready Site.two_documents.
Proof.
  intros objtype Hin. apply in_node_tables in Hin.
  destruct Hin as [-> | [-> | [-> | ->]]]; by eexists.
Qed.

(** Clearing [pumps] leaves the registration made in [overview]. *)
Lemma pumps_cleared :
  (clear_doc "pumps" Site.two_documents).1 = Ok tt ∧
  registrations (clear_doc "pumps" Site.two_documents).2 "functionblock" "FB_Pump"
  = [entry_for "overview" [] "FB_Pump"].
Proof.
  destruct (clear_doc_removes_one_document "pumps" Site.two_documents
              two_documents_ready) as (Hdone & Hkept & _).
  split; [exact Hdone |].
  rewrite Hkept; [reflexivity |].
  unfold dict_keys, initial_data. simpl. rewrite !elem_of_cons. auto.
Defined.

(** The role [fb] finds the two registrations of the pump. *)
Lemma pump_found_by_fb :
  find_obj Site.two_documents "fb" "FB_Pump"
  = Ok [entry_for "pumps" [] "FB_Pump"; entry_for "overview" [] "FB_Pump"] ∧
  ([entry_for "pumps" [] "FB_Pump"; entry_for "overview" [] "FB_Pump"] = [] ∨
   ∃ objtype, ("fb", objtype) ∈ role_tables ∧
     [entry_for "pumps" [] "FB_Pump"; entry_for "overview" [] "FB_Pump"]
     = registrations Site.two_documents objtype "FB_Pump").
Proof.
  split; [reflexivity |].
  apply (find_obj_by_role Site.two_documents "fb" "FB_Pump"). reflexivity.
Defined.

(** With [pumps] cleared, the reference to the pump goes to [overview]. *)
Lemma pump_reference_after_clearing :
  resolve_xref (clear_doc "pumps" Site.two_documents).2 "index" "fb" "FB_Pump"
  = Ok (Some (reference_to "index" "FB_Pump" (entry_for "overview" [] "FB_Pump")),
        []) ∧
  ref_todocname (reference_to "index" "FB_Pump" (entry_for "overview" [] "FB_Pump"))
  ≠ "pumps".
Proof.
  split; [reflexivity |].
  apply (cleared_document_is_no_target "pumps" Site.two_documents "index" "fb"
           "FB_Pump" _ [] two_documents_ready).
  reflexivity.
Defined.

Section StoringRuns.
#[local] Existing Instance Site.storing.

(** A directive for [FB_Motor], which the documentation set of the pumps
    does not declare. *)
Lemma motor_directive_gives_no_node :
  let ran := run (λ node, node) "bk:functionblock" ["FB_Motor"] Site.environment
               Site.pump_docs in
  returned ran = Ok [] ∧
  domaindata_after ran = domaindata Site.environment ∧
  logged ran = ["Could not find: FB_Motor"].
Proof.
  apply (unknown_block_gives_no_node (λ node, node) "bk:functionblock"
           "FB_Motor" [] Site.environment Site.pump_docs initial_data);
    [reflexivity | repeat constructor].
Defined.

(** The node of the pump under a docutils that stores: of its five
    members, the parameter [bEnable] is kept as [rawsource] and the four
    others are its children. *)
Example pump_node_has_four_children :
  ∃ node,
    from_fb Site.pump = Ok node ∧
    rawsource node
    = Some (from_decl Site.pump (Site.declaration "bEnable" "BOOL").2) ∧
    ids <$> children node
    = [ ["FB_Pump.stAxis"]; ["FB_Pump.bBusy"]; ["FB_Pump.Reset"];
        ["FB_Pump.Start"] ].
Proof. by eexists. Qed.

(** A directive for the pump under a docutils that stores: the block,
    three parameters, the action and the method are registered, the
    parameter [bEnable] of the block and the parameter [fSpeed] of the
    method are not. *)
Example pump_directive_loses_first_parameters :
  let ran := run (λ node, node) "bk:functionblock" ["FB_Pump"] Site.environment
               Site.pump_docs in
  ∃ bk',
    dict_get (domaindata_after ran) "bk" = Some bk' ∧
    dict_keys <$> dict_get bk' "functionblock" = Some ["FB_Pump"] ∧
    dict_keys <$> dict_get bk' "parameter"
      = Some ["FB_Pump.stAxis"; "FB_Pump.bBusy"] ∧
    dict_keys <$> dict_get bk' "action" = Some ["FB_Pump.Reset"] ∧
    dict_keys <$> dict_get bk' "method" = Some ["FB_Pump.Start"].
Proof. by eexists. Qed.

(** The signature of the pump: [bEnable], then [stAxis]; output [bBusy]. *)
Lemma pump_signature :
  ∃ node,
    from_fb Site.pump = Ok node ∧
    get_render_context node
    = Some ([ (Site.declaration "bEnable" "BOOL").2;
              (Site.declaration "stAxis" "ST_Axis").2 ],
            [ (Site.declaration "bBusy" "BOOL").2 ]).
Proof.
  eexists. split; [reflexivity |].
  apply (render_context_of_a_block Site.pump); [reflexivity | |].
  - apply NoDup_singleton.
  - intros name Hin Hinput. simpl in Hin, Hinput.
    apply list_elem_of_singleton in Hin as ->.
    by apply list_elem_of_singleton in Hinput.
Defined.

End StoringRuns.

Section RefusingRuns.
#[local] Existing Instance Site.refusing.

Lemma valve_documents_ready : tables_ready Site.valve_documents.
Proof.
  intros objtype Hin. apply in_node_tables in Hin.
  destruct Hin as [-> | [-> | [-> | ->]]]; by eexists.
Qed.

(** A directive for [FB_Valve], a block without members, in the document
    [pumps]: the node has no positional argument, so it is built whatever
    docutils does with [rawsource]. *)
Lemma valve_directive_registers :
  let ran := run (λ node, node) "bk:functionblock" ["FB_Valve"] Site.environment
               Demo.docs_cache in
  returned ran
    = Ok [ FunctionBlockNode None [] "FB_Valve" ["FB_Valve"] []
             "FUNCTION_BLOCK FB_Valve" ] ∧
  logged ran = [] ∧
  (∃ bk',
     dict_get (domaindata_after ran) "bk" = Some bk' ∧
     find_obj bk' "fb" "FB_Valve" = Ok [entry_for "pumps" ["plant"] "FB_Valve"]) ∧
  (∀ domain, domain ≠ "bk" →
     dict_get (domaindata_after ran) domain
     = dict_get (domaindata Site.environment) domain).
Proof.
  apply (known_block_is_registered (λ node, node) "bk:functionblock" "FB_Valve"
           [] Site.environment Demo.docs_cache initial_data Demo.valve_summary);
    [reflexivity | exact initial_data_ready | reflexivity | reflexivity].
Defined.

(** The valve registered a third time, in [service]: a reference still
    goes to [valves], and the warning names the three registrations. *)
Lemma valve_reference_goes_to_valves :
  resolve_xref
    (register (FunctionBlockNode None [] "FB_Valve" ["FB_Valve"] []
                 "FUNCTION_BLOCK FB_Valve")
       "service" [] Site.valve_documents).2
    "index" "fb" "FB_Valve"
  = Ok (Some (reference_to "index" "FB_Valve" (entry_for "valves" [] "FB_Valve")),
        [ "More than one target found for cross-reference 'FB_Valve': "
          +:+ "FB_Valve, FB_Valve, FB_Valve" ]).
Proof.
  exact (first_registration_wins Demo.valve_summary _ "service" []
           Site.valve_documents "index" valve_documents_ready eq_refl).
Defined.

(** The pump has members: under a docutils that refuses an element as
    [rawsource] its node cannot be built. *)
Example pump_node_is_refused :
  from_fb Site.pump = Raise (TypeError "rawsource must be a text").
Proof. reflexivity. Qed.

(** A directive for the pump under a docutils that refuses. *)
Lemma pump_directive_is_refused :
  let ran := run (λ node, node) "bk:functionblock" ["FB_Pump"] Site.environment
               Site.pump_docs in
  returned ran = Raise (TypeError "rawsource must be a text") ∧
  domaindata_after ran = domaindata Site.environment ∧
  logged ran = [].
Proof.
  apply (block_with_members_is_refused (λ node, node) "bk:functionblock"
           "FB_Pump" [] Site.environment Site.pump_docs initial_data Site.pump
           "rawsource must be a text");
    [reflexivity | reflexivity | reflexivity | simpl; lia].
Defined.

End RefusingRuns.

End DomainRuns.
